(** * seata-js: the TCP frame decoder [SeataTcpBuffer]

    A shallow embedding of
    [packages/seata-js/src/seata-rpc-client/seata-tcp-buffer.ts]
    and the properties of its [receive] method. *)

From Stdlib Require Import ZArith List Bool Lia.
From Stdlib.Strings Require Import Byte.
Import ListNotations.
Local Open Scope Z_scope.

(** ** Protocol constants *)

(** Modelled from the spec: the module [seata-protocol/protocol-constants]
    imported as [prot] is not among the sources.  [receive] reads three of
    its fields; they are the fields of this record, so that every property
    below is stated for whatever values the module gives them. *)
Record ProtocolConstants : Type := {
  MAGIC_HIGH : byte;
  MAGIC_LOW : byte;
  V1_HEAD_LENGTH : Z
}.

(** The values of the spec's end-to-end example. *)
Definition example_prot : ProtocolConstants :=
  {| MAGIC_HIGH := xda; MAGIC_LOW := xda; V1_HEAD_LENGTH := 7 |}.

(** Two distinct marker bytes, the general case of the spec's sections 3
    and 4.2. *)
Definition distinct_prot : ProtocolConstants :=
  {| MAGIC_HIGH := xda; MAGIC_LOW := xdb; V1_HEAD_LENGTH := 7 |}.

(** ** The byte accumulator *)

(** Modelled from the spec: the class [ByteBuffer] of
    [seata-common/byte-buffer] is not among the sources.  Its operations
    follow section 4.1 of the spec: an ordered sequence of octets, appended
    at the tail, searched for a byte, read at an offset without consuming,
    and trimmed at the head by [splice]. *)
Module ByteBuffer.

Definition t : Type := list byte.

Definition empty : t := [].

(** [writeBytes(data)]: concatenates [data] to the tail. *)
Definition writeBytes (data : list byte) (b : t) : t := b ++ data.

(** [getLength()]: the current byte count. *)
Definition getLength (b : t) : Z := Z.of_nat (length b).

Fixpoint indexFrom (i : Z) (value : byte) (b : t) : Z :=
  match b with
  | [] => -1
  | x :: rest => if Byte.eqb x value then i else indexFrom (i + 1) value rest
  end.

(** [indexOf(value)]: the lowest index holding [value], or [-1]. *)
Definition indexOf (value : byte) (b : t) : Z := indexFrom 0 value b.

Definition octet (x : byte) : Z := Z.of_N (Byte.to_N x).

Definition uint32BE (b3 b2 b1 b0 : byte) : Z :=
  Z.lor (Z.shiftl (octet b3) 24)
    (Z.lor (Z.shiftl (octet b2) 16)
       (Z.lor (Z.shiftl (octet b1) 8) (octet b0))).

(** [readInt({ unsigned: true, index })]: the 4-byte big-endian unsigned
    integer at [index], nothing removed; it fails when
    [index + 4 > getLength()]. *)
Definition readUInt32BE (index : Z) (b : t) : option Z :=
  if (0 <=? index) && (index + 4 <=? getLength b) then
    match skipn (Z.to_nat index) b with
    | b3 :: b2 :: b1 :: b0 :: _ => Some (uint32BE b3 b2 b1 b0)
    | _ => None
    end
  else None.

(** [splice(start, count)]: removes [count] bytes beginning at [start] and
    returns them; the bytes before [start] are discarded as well.  It
    fails when [start + count > getLength()].  The spec gives no meaning
    to a negative [start] or [count]; no range of bytes answers to one, and
    the model lets the operation fail there too. *)
Definition splice (start count : Z) (b : t) : option (list byte * t) :=
  if (0 <=? start) && (0 <=? count) && (start + count <=? getLength b) then
    Some (firstn (Z.to_nat count) (skipn (Z.to_nat start) b),
          skipn (Z.to_nat (start + count)) b)
  else None.

End ByteBuffer.

(** ** Control flow of [receive] *)

(** The two ways an accumulator operation can fail, with the arguments of
    the failing call and the byte count at that moment. *)
Inductive fault : Type :=
| ReadOutOfRange (index len : Z)
| SpliceOutOfRange (start count len : Z).

(** How a piece of the loop body ends: it falls through with a value, it
    executes [return], or an accumulator operation fails. *)
Inductive completion (A : Type) : Type :=
| Normal (a : A)
| Return
| Throw (f : fault).
Arguments Normal {A} a.
Arguments Return {A}.
Arguments Throw {A} f.

(** Statements of the body act on [this.buff]. *)
Definition M (A : Type) : Type := ByteBuffer.t -> completion A * ByteBuffer.t.

Definition ret {A : Type} (a : A) : M A := fun b => (Normal a, b).

Definition bind {A B : Type} (m : M A) (k : A -> M B) : M B :=
  fun b =>
    match m b with
    | (Normal a, b') => k a b'
    | (Return, b') => (Return, b')
    | (Throw f, b') => (Throw f, b')
    end.

Notation "x <- m ;; k" := (bind m (fun x => k))
  (at level 61, m at next level, right associativity).
Notation "m ;; k" := (bind m (fun _ => k))
  (at level 61, right associativity).

Definition return_ {A : Type} : M A := fun b => (Return, b).

Definition when (c : bool) (m : M unit) : M unit :=
  if c then m else ret tt.

Definition getLength : M Z := fun b => (Normal (ByteBuffer.getLength b), b).

Definition indexOf (value : byte) : M Z :=
  fun b => (Normal (ByteBuffer.indexOf value b), b).

Definition readInt (index : Z) : M Z :=
  fun b =>
    match ByteBuffer.readUInt32BE index b with
    | Some n => (Normal n, b)
    | None => (Throw (ReadOutOfRange index (ByteBuffer.getLength b)), b)
    end.

Definition splice (start count : Z) : M (list byte) :=
  fun b =>
    match ByteBuffer.splice start count b with
    | Some (removed, b') => (Normal removed, b')
    | None => (Throw (SpliceOutOfRange start count (ByteBuffer.getLength b)), b)
    end.

(** ** [SeataTcpBuffer.receive] *)

(** How a call of [receive] ends.  [Running] is the loop still going when
    the iterations allowed to the model are used up. *)
Inductive status : Type :=
| Finished
| Failed (f : fault)
| Running.

(** What a call leaves behind: the buffers passed to [this.subscriber], in
    call order, and the accumulator. *)
Record outcome : Type := {
  emitted : list (list byte);
  buff : ByteBuffer.t;
  st : status
}.

Section Receive.

Variable prot : ProtocolConstants.

(** Lines 85 to 97, the body of [if (highMagicIndex !== 0 ||
    lowMagicIndex !== 1)]: the head of the accumulator is dropped, and the
    call returns when too little is left. *)
Definition discard (highMagicIndex lowMagicIndex : Z) : M unit :=
  (if lowMagicIndex - highMagicIndex =? 1 then
     splice 0 highMagicIndex ;; ret tt
   else
     let maxMagicPosition := Z.max highMagicIndex lowMagicIndex in
     len <- getLength ;;
     when (maxMagicPosition + 1 >=? len) return_ ;;
     splice 0 (maxMagicPosition + 1) ;; ret tt) ;;
  len <- getLength ;;
  when (len <? V1_HEAD_LENGTH prot) return_.

(** Lines 101 and 102: the length field is read and that many bytes are
    cut off the front. *)
Definition extract : M (list byte) :=
  fullLength <- readInt 3 ;;
  buff <- splice 0 fullLength ;;
  ret buff.

(** One pass through the body of the [while] loop, up to the call of the
    subscriber: a normal completion carries the buffer handed to
    [this.subscriber]. *)
Definition iteration : M (list byte) :=
  highMagicIndex <- indexOf (MAGIC_HIGH prot) ;;
  lowMagicIndex <- indexOf (MAGIC_LOW prot) ;;
  (* check magic high index and magic low index *)
  when (negb (highMagicIndex =? -1) && negb (lowMagicIndex =? -1))
    return_ ;;
  (* resolve wrong magic position *)
  when (negb (highMagicIndex =? 0) || negb (lowMagicIndex =? 1))
    (discard highMagicIndex lowMagicIndex) ;;
  (* read full length *)
  extract.

(** [while (this.buff.getLength() >= prot.V1_HEAD_LENGTH) { ... }], with a
    bound on the number of iterations. *)
Fixpoint while (fuel : nat) (b : ByteBuffer.t) : outcome :=
  if ByteBuffer.getLength b <? V1_HEAD_LENGTH prot then
    {| emitted := []; buff := b; st := Finished |}
  else
    match fuel with
    | O => {| emitted := []; buff := b; st := Running |}
    | S fuel' =>
        match iteration b with
        | (Normal frame, b') =>
            let r := while fuel' b' in
            {| emitted := frame :: emitted r; buff := buff r; st := st r |}
        | (Return, b') => {| emitted := []; buff := b'; st := Finished |}
        | (Throw f, b') => {| emitted := []; buff := b'; st := Failed f |}
        end
    end.

(** [receive(data)] on a decoder whose accumulator holds [acc]. *)
Definition receive (fuel : nat) (acc : ByteBuffer.t) (data : list byte)
  : outcome :=
  while fuel (ByteBuffer.writeBytes data acc).

(** The transport's ['data'] events: one [receive] per chunk, in arrival
    order, each on the accumulator the previous one left.  A call that
    does not return normally ends the sequence. *)
Fixpoint receiveAll (fuel : nat) (acc : ByteBuffer.t)
    (chunks : list (list byte)) : outcome :=
  match chunks with
  | [] => {| emitted := []; buff := acc; st := Finished |}
  | data :: rest =>
      let r := receive fuel acc data in
      match st r with
      | Finished =>
          let r' := receiveAll fuel (buff r) rest in
          {| emitted := emitted r ++ emitted r';
             buff := buff r'; st := st r' |}
      | _ => r
      end
  end.

End Receive.

(** ** The accumulator's operations *)

Module ByteBufferFacts.
Import ByteBuffer.

Lemma indexFrom_range (value : byte) (b : t) :
  forall i, 0 <= i ->
    indexFrom i value b = -1 \/
    (i <= indexFrom i value b < i + getLength b).
Proof.
  induction b as [|x rest IH]; intros i Hi; simpl.
  - now left.
  - destruct (Byte.eqb x value).
    + right. unfold getLength. simpl length. lia.
    + destruct (IH (i + 1)) as [E|E]; [lia|now left|right].
      unfold getLength in *. simpl length. lia.
Qed.

Lemma indexFrom_found (value : byte) (b : t) :
  forall i, 0 <= i -> In value b -> indexFrom i value b <> -1.
Proof.
  induction b as [|x rest IH]; intros i Hi Hin; simpl.
  - destruct Hin.
  - destruct (Byte.eqb x value) eqn:E; [lia|].
    destruct Hin as [->|Hin].
    + rewrite (Byte.byte_dec_lb (x:=value) (y:=value) eq_refl) in E. discriminate.
    + apply IH; [lia|assumption].
Qed.

Lemma indexFrom_absent (value : byte) (b : t) :
  forall i, ~ In value b -> indexFrom i value b = -1.
Proof.
  induction b as [|x rest IH]; intros i Hn; simpl; [reflexivity|].
  destruct (Byte.eqb x value) eqn:E.
  - exfalso. apply Hn. left. now apply Byte.byte_dec_bl.
  - apply IH. intro H. apply Hn. now right.
Qed.

(** [indexOf] answers [-1] exactly when the byte occurs nowhere. *)
Lemma indexOf_found (value : byte) (b : t) :
  In value b <-> indexOf value b <> -1.
Proof.
  unfold indexOf. split.
  - apply indexFrom_found. lia.
  - intros H. destruct (in_dec Byte.byte_eq_dec value b) as [Hin|Hn];
      [assumption|].
    exfalso. apply H. now apply indexFrom_absent.
Qed.

Lemma indexOf_range (value : byte) (b : t) :
  indexOf value b = -1 \/ 0 <= indexOf value b < getLength b.
Proof.
  unfold indexOf. destruct (indexFrom_range value b 0) as [E|E];
    [lia|now left|right; lia].
Qed.

Lemma splice_front (count : Z) (b : t) (removed rest : list byte) :
  splice 0 count b = Some (removed, rest) ->
  b = removed ++ rest /\ getLength removed = count.
Proof.
  unfold splice. simpl.
  destruct (0 <=? count) eqn:Hc; [|discriminate].
  destruct (count <=? getLength b) eqn:Hl; [|discriminate].
  intros H. injection H as <- <-.
  apply Z.leb_le in Hc, Hl. unfold getLength in *.
  split.
  - symmetry. apply firstn_skipn.
  - rewrite length_firstn. lia.
Qed.

(** With seven bytes buffered the length field at offset 3 is there. *)
Lemma readUInt32BE_in_range (b : t) :
  7 <= getLength b -> exists n, readUInt32BE 3 b = Some n.
Proof.
  intros H. unfold readUInt32BE.
  assert (E : (0 <=? 3) && (3 + 4 <=? getLength b) = true).
  { apply andb_true_intro. split; now apply Z.leb_le. }
  rewrite E.
  destruct b as [|x0 [|x1 [|x2 [|x3 [|x4 [|x5 [|x6 b]]]]]]];
    try (unfold getLength in H; simpl in H; lia).
  simpl. eauto.
Qed.

End ByteBufferFacts.

(** ** The loop body and the loop *)

Section ReceiveFacts.

Variable prot : ProtocolConstants.

(** Line 73: with both indices different from [-1] the body executes
    [return] at once, the accumulator as it was. *)
Lemma iteration_markers_present (b : ByteBuffer.t) :
  In (MAGIC_HIGH prot) b -> In (MAGIC_LOW prot) b ->
  iteration prot b = (Return, b).
Proof.
  intros Hh Hl.
  apply ByteBufferFacts.indexOf_found in Hh, Hl.
  apply Z.eqb_neq in Hh, Hl.
  unfold iteration, bind, indexOf. simpl.
  rewrite Hh, Hl. reflexivity.
Qed.

Lemma while_markers_present (fuel : nat) (b : ByteBuffer.t) :
  In (MAGIC_HIGH prot) b -> In (MAGIC_LOW prot) b ->
  while prot (S fuel) b = {| emitted := []; buff := b; st := Finished |}.
Proof.
  intros Hh Hl. simpl.
  destruct (ByteBuffer.getLength b <? V1_HEAD_LENGTH prot); [reflexivity|].
  rewrite (iteration_markers_present b Hh Hl). reflexivity.
Qed.

Lemma while_short (fuel : nat) (b : ByteBuffer.t) :
  ByteBuffer.getLength b < V1_HEAD_LENGTH prot ->
  while prot fuel b = {| emitted := []; buff := b; st := Finished |}.
Proof.
  intros H. apply Z.ltb_lt in H.
  destruct fuel; simpl; rewrite H; reflexivity.
Qed.

(** A call that has come to an end does the same with more iterations
    allowed. *)
Lemma while_more_fuel (fuel : nat) :
  forall b, st (while prot fuel b) <> Running ->
  forall k, while prot (fuel + k) b = while prot fuel b.
Proof.
  induction fuel as [|fuel IH]; intros b Hst k.
  - simpl in Hst.
    destruct (ByteBuffer.getLength b <? V1_HEAD_LENGTH prot) eqn:E.
    + rewrite !while_short; try reflexivity; now apply Z.ltb_lt.
    + simpl in Hst. congruence.
  - simpl in *.
    destruct (ByteBuffer.getLength b <? V1_HEAD_LENGTH prot); [reflexivity|].
    destruct (iteration prot b) as [[frame| |f] b']; try reflexivity.
    simpl in Hst. rewrite (IH b' Hst k). reflexivity.
Qed.

Lemma bind_normal {A B : Type} (m : M A) (k : A -> M B)
    (b b' : ByteBuffer.t) (y : B) :
  bind m k b = (Normal y, b') ->
  exists a b1, m b = (Normal a, b1) /\ k a b1 = (Normal y, b').
Proof.
  unfold bind. destruct (m b) as [[a| |f] b1]; try discriminate.
  intros H. now exists a, b1.
Qed.

Lemma when_normal (c : bool) (b b' : ByteBuffer.t) :
  when c return_ b = (Normal tt, b') -> c = false /\ b' = b.
Proof.
  destruct c; simpl; unfold return_, ret; intros H;
    [discriminate|]. injection H as <-. now split.
Qed.

Lemma splice_normal (count : Z) (b b' : ByteBuffer.t) (removed : list byte) :
  splice 0 count b = (Normal removed, b') ->
  b = removed ++ b' /\ ByteBuffer.getLength removed = count.
Proof.
  unfold splice.
  destruct (ByteBuffer.splice 0 count b) as [[r b1]|] eqn:E;
    [|discriminate].
  intros H. injection H as <- <-.
  now apply ByteBufferFacts.splice_front.
Qed.

(** The block that drops the head falls through only with a suffix of the
    accumulator, at least [V1_HEAD_LENGTH] bytes long. *)
Lemma discard_normal (hi lo : Z) (b b1 : ByteBuffer.t) :
  discard prot hi lo b = (Normal tt, b1) ->
  exists dropped,
    b = dropped ++ b1 /\ V1_HEAD_LENGTH prot <= ByteBuffer.getLength b1.
Proof.
  unfold discard. intros H.
  apply bind_normal in H as ([] & b2 & Hdrop & H).
  apply bind_normal in H as (len & b3 & Hlen & H).
  unfold getLength in Hlen. injection Hlen as Hl Hb; subst.
  apply when_normal in H as [Hlt ->]. apply Z.ltb_ge in Hlt.
  destruct (lo - hi =? 1).
  - apply bind_normal in Hdrop as (removed & b4 & Hs & Hr).
    unfold ret in Hr. injection Hr as <-.
    apply splice_normal in Hs as [-> _]. now exists removed.
  - apply bind_normal in Hdrop as (len & b4 & Hlen & Hdrop).
    unfold getLength in Hlen. injection Hlen as Hl Hb; subst.
    apply bind_normal in Hdrop as ([] & b5 & Hw & Hdrop).
    apply when_normal in Hw as [_ ->].
    apply bind_normal in Hdrop as (removed & b6 & Hs & Hr).
    unfold ret in Hr. injection Hr as <-.
    apply splice_normal in Hs as [-> _]. now exists removed.
Qed.

(** Extraction hands over the leading bytes of the accumulator, as many
    as its length field says. *)
Lemma extract_normal (b b' : ByteBuffer.t) (frame : list byte) :
  extract b = (Normal frame, b') ->
  b = frame ++ b' /\
  ByteBuffer.readUInt32BE 3 b = Some (ByteBuffer.getLength frame).
Proof.
  unfold extract. intros H.
  apply bind_normal in H as (fullLength & b1 & Hread & H).
  apply bind_normal in H as (removed & b2 & Hs & Hr).
  unfold ret in Hr. injection Hr as <- <-.
  unfold readInt in Hread.
  destruct (ByteBuffer.readUInt32BE 3 b) as [n|] eqn:E; [|discriminate].
  injection Hread as <- <-.
  apply splice_normal in Hs as [Hb Hn]. split; [assumption|].
  now rewrite Hn.
Qed.

(** What a pass that reaches the subscriber has done: it dropped a prefix,
    found at least [V1_HEAD_LENGTH] bytes left, read the length field of
    what was left and cut that many bytes off its front. *)
Lemma iteration_emits (b b' : ByteBuffer.t) (frame : list byte) :
  iteration prot b = (Normal frame, b') ->
  exists dropped,
    b = dropped ++ frame ++ b' /\
    V1_HEAD_LENGTH prot <= ByteBuffer.getLength (frame ++ b') /\
    ByteBuffer.readUInt32BE 3 (frame ++ b') =
      Some (ByteBuffer.getLength frame).
Proof.
  unfold iteration. intros H.
  apply bind_normal in H as (hi & b1 & Hhi & H).
  unfold indexOf in Hhi. injection Hhi as <- <-.
  apply bind_normal in H as (lo & b1 & Hlo & H).
  unfold indexOf in Hlo. injection Hlo as <- <-.
  set (hi := ByteBuffer.indexOf (MAGIC_HIGH prot) b) in *.
  set (lo := ByteBuffer.indexOf (MAGIC_LOW prot) b) in *.
  apply bind_normal in H as ([] & b1 & Hw & H).
  apply when_normal in Hw as [Hboth ->].
  apply bind_normal in H as ([] & b1 & Hd & H).
  destruct (negb (hi =? 0) || negb (lo =? 1)) eqn:Hpos; simpl in Hd.
  - apply discard_normal in Hd as (dropped & -> & Hlen).
    apply extract_normal in H as [-> Hread].
    exists dropped. now repeat split.
  - exfalso. apply orb_false_elim in Hpos as [H0 H1].
    apply negb_false_iff, Z.eqb_eq in H0, H1.
    rewrite H0, H1 in Hboth. discriminate.
Qed.

Lemma bind_throw {A B : Type} (m : M A) (k : A -> M B)
    (b b' : ByteBuffer.t) (f : fault) :
  bind m k b = (Throw f, b') ->
  m b = (Throw f, b') \/
  exists a b1, m b = (Normal a, b1) /\ k a b1 = (Throw f, b').
Proof.
  unfold bind. destruct (m b) as [[a| |f0] b1]; intros H.
  - right. now exists a, b1.
  - discriminate.
  - injection H as -> ->. now left.
Qed.

Lemma when_no_throw (c : bool) (b b' : ByteBuffer.t) (f : fault) :
  when c return_ b <> (Throw f, b').
Proof. destruct c; discriminate. Qed.

(** The read of line 101 is in range whenever the header is at least
    seven bytes long: it comes behind a length test on every path. *)
Lemma iteration_read_in_range (b b' : ByteBuffer.t) (index len : Z) :
  7 <= V1_HEAD_LENGTH prot ->
  iteration prot b <> (Throw (ReadOutOfRange index len), b').
Proof.
  intros Hhead H. unfold iteration in H.
  apply bind_throw in H as [H|(hi & b1 & Hhi & H)]; [discriminate|].
  unfold indexOf in Hhi. injection Hhi as <- <-.
  apply bind_throw in H as [H|(lo & b1 & Hlo & H)]; [discriminate|].
  unfold indexOf in Hlo. injection Hlo as <- <-.
  set (hi := ByteBuffer.indexOf (MAGIC_HIGH prot) b) in *.
  set (lo := ByteBuffer.indexOf (MAGIC_LOW prot) b) in *.
  apply bind_throw in H as [H|([] & b1 & Hw & H)];
    [now apply when_no_throw in H|].
  apply when_normal in Hw as [Hboth ->].
  destruct (negb (hi =? 0) || negb (lo =? 1)) eqn:Hpos; simpl in H.
  - apply bind_throw in H as [H|([] & b1 & Hd & H)].
    + (* the block that drops the head fails on a splice only *)
      unfold discard in H.
      apply bind_throw in H as [H|([] & b1 & _ & H)].
      * destruct (lo - hi =? 1).
        -- apply bind_throw in H as [H|(r & b1 & _ & H)];
             [|discriminate].
           unfold splice in H.
           destruct (ByteBuffer.splice 0 hi b) as [[? ?]|]; discriminate.
        -- apply bind_throw in H as [H|(n & b1 & Hn & H)];
             [discriminate|].
           apply bind_throw in H as [H|([] & b2 & _ & H)];
             [now apply when_no_throw in H|].
           apply bind_throw in H as [H|(r & b3 & _ & H)];
             [|discriminate].
           unfold splice in H.
           destruct (ByteBuffer.splice 0 (Z.max hi lo + 1) b2)
             as [[? ?]|]; discriminate.
      * apply bind_throw in H as [H|(n & b2 & _ & H)]; [discriminate|].
        now apply when_no_throw in H.
    + apply discard_normal in Hd as (dropped & _ & Hlen).
      unfold extract in H.
      apply bind_throw in H as [H|(n & b2 & _ & H)].
      * unfold readInt in H.
        destruct (ByteBufferFacts.readUInt32BE_in_range b1) as [n E];
          [lia|].
        rewrite E in H. discriminate.
      * apply bind_throw in H as [H|(r & b3 & _ & H)]; [|discriminate].
        unfold splice in H.
        destruct (ByteBuffer.splice 0 n b2) as [[? ?]|]; discriminate.
  - apply orb_false_elim in Hpos as [H0 H1].
    apply negb_false_iff, Z.eqb_eq in H0, H1.
    rewrite H0, H1 in Hboth. discriminate.
Qed.

Lemma while_read_in_range (fuel : nat) :
  7 <= V1_HEAD_LENGTH prot ->
  forall (b : ByteBuffer.t) (index len : Z),
  st (while prot fuel b) <> Failed (ReadOutOfRange index len).
Proof.
  intros Hhead. induction fuel as [|fuel IH]; intros b index len; simpl.
  - destruct (ByteBuffer.getLength b <? V1_HEAD_LENGTH prot); discriminate.
  - destruct (ByteBuffer.getLength b <? V1_HEAD_LENGTH prot);
      [discriminate|].
    destruct (iteration prot b) as [[frame| |f] b'] eqn:E; simpl.
    + apply IH.
    + discriminate.
    + intros H. injection H as ->.
      now apply iteration_read_in_range in E.
Qed.

(** Every buffer a call hands to the subscriber is cut from the
    accumulator: some bytes before it, and behind it the rest of the
    accumulator it was the head of, whose length field gives its size. *)
Lemma while_emits (fuel : nat) :
  forall (b : ByteBuffer.t) (frame : list byte),
  In frame (emitted (while prot fuel b)) ->
  exists before rest,
    b = before ++ frame ++ rest /\
    V1_HEAD_LENGTH prot <= ByteBuffer.getLength (frame ++ rest) /\
    ByteBuffer.readUInt32BE 3 (frame ++ rest) =
      Some (ByteBuffer.getLength frame).
Proof.
  induction fuel as [|fuel IH]; intros b frame Hin; simpl in Hin.
  - destruct (ByteBuffer.getLength b <? V1_HEAD_LENGTH prot);
      destruct Hin.
  - destruct (ByteBuffer.getLength b <? V1_HEAD_LENGTH prot);
      [destruct Hin|].
    destruct (iteration prot b) as [[first| |f] b'] eqn:E;
      try destruct Hin.
    + subst first.
      apply iteration_emits in E as (dropped & Hb & Hlen & Hread).
      now exists dropped, b'.
    + apply iteration_emits in E as (dropped & Hb & _).
      destruct (IH b' frame H) as (before & rest & Hb' & Hlen & Hread).
      exists (dropped ++ first ++ before), rest.
      split; [|now split].
      rewrite Hb, Hb', <- !app_assoc. reflexivity.
Qed.

End ReceiveFacts.

(** ** Frames and chunked delivery *)

(** A well-formed frame of the wire format: the two markers at offsets 0
    and 1, and at offset 3 a length field equal to the frame's own byte
    count, which is at least [V1_HEAD_LENGTH]. *)
Definition wellFormedFrame (prot : ProtocolConstants) (F : list byte) : Prop :=
  nth_error F 0 = Some (MAGIC_HIGH prot) /\
  nth_error F 1 = Some (MAGIC_LOW prot) /\
  ByteBuffer.readUInt32BE 3 F = Some (ByteBuffer.getLength F) /\
  V1_HEAD_LENGTH prot <= ByteBuffer.getLength F.

(** The number of leading bytes lines 85 to 92 single out for removal. *)
Definition garbagePrefix (highMagicIndex lowMagicIndex : Z) : Z :=
  if lowMagicIndex - highMagicIndex =? 1 then highMagicIndex
  else Z.max highMagicIndex lowMagicIndex + 1.

(** The frame of the spec's end-to-end example and its two chunks. *)
Definition example_frame : list byte :=
  [xda; xda; x01; x00; x00; x00; x09; xab; xcd].

Definition example_chunks : list (list byte) :=
  [[xda; xda; x01]; [x00; x00; x00; x09; xab; xcd]].

Section Delivery.

Variable prot : ProtocolConstants.

Lemma aligned_markers_present (b : ByteBuffer.t) :
  nth_error b 0 = Some (MAGIC_HIGH prot) ->
  nth_error b 1 = Some (MAGIC_LOW prot) ->
  In (MAGIC_HIGH prot) b /\ In (MAGIC_LOW prot) b.
Proof.
  intros H0 H1. split; eapply nth_error_In; eassumption.
Qed.

(** A call whose accumulator ends up a leading part of a frame, markers
    included or not, emits nothing and keeps every byte. *)
Lemma receive_frame_prefix (fuel : nat) (acc data tail rest : list byte) :
  2 <= V1_HEAD_LENGTH prot ->
  (acc ++ data) ++ tail = MAGIC_HIGH prot :: MAGIC_LOW prot :: rest ->
  receive prot (S fuel) acc data =
    {| emitted := []; buff := acc ++ data; st := Finished |}.
Proof.
  intros Hhead Hpre. unfold receive, ByteBuffer.writeBytes.
  destruct (Z.ltb_spec (ByteBuffer.getLength (acc ++ data))
              (V1_HEAD_LENGTH prot)) as [Hlt|Hge].
  - now apply while_short.
  - assert (Hlen : 2 <= ByteBuffer.getLength (acc ++ data)) by lia.
    destruct (acc ++ data) as [|x [|y b]];
      try (unfold ByteBuffer.getLength in Hlen; simpl in Hlen; lia).
    simpl in Hpre. injection Hpre as -> -> _.
    apply while_markers_present; simpl; auto.
Qed.

Lemma receiveAll_frame_prefix (fuel : nat) (rest : list byte) :
  2 <= V1_HEAD_LENGTH prot ->
  forall (chunks : list (list byte)) (acc : list byte),
  acc ++ concat chunks = MAGIC_HIGH prot :: MAGIC_LOW prot :: rest ->
  receiveAll prot (S fuel) acc chunks =
    {| emitted := []; buff := acc ++ concat chunks; st := Finished |}.
Proof.
  intros Hhead. induction chunks as [|data chunks IH]; intros acc Hpre.
  - simpl. now rewrite app_nil_r.
  - cbn [receiveAll concat] in *.
    rewrite app_assoc in Hpre.
    rewrite (receive_frame_prefix fuel acc data (concat chunks) rest Hhead Hpre).
    cbn [st buff emitted].
    rewrite (IH (acc ++ data) Hpre). cbn [st buff emitted app].
    now rewrite app_assoc.
Qed.

(** With both markers in the accumulator, no sequence of further chunks
    gets anything out of it. *)
Lemma receiveAll_markers_present (fuel : nat) :
  forall (chunks : list (list byte)) (acc : list byte),
  In (MAGIC_HIGH prot) acc -> In (MAGIC_LOW prot) acc ->
  receiveAll prot (S fuel) acc chunks =
    {| emitted := []; buff := acc ++ concat chunks; st := Finished |}.
Proof.
  induction chunks as [|data chunks IH]; intros acc Hh Hl.
  - simpl. now rewrite app_nil_r.
  - cbn [receiveAll concat]. unfold receive, ByteBuffer.writeBytes.
    rewrite while_markers_present by (apply in_or_app; now left).
    cbn [st buff emitted]. rewrite IH by (apply in_or_app; now left).
    cbn [st buff emitted app]. now rewrite app_assoc.
Qed.

End Delivery.

(** ** Properties of [receive] *)

(** Closed facts about concrete buffers are settled by evaluation. *)
Ltac by_evaluation :=
  first [ reflexivity
        | vm_compute; discriminate
        | left; vm_compute; discriminate
        | simpl; auto; fail ].

(** C10: when, after the chunk is appended, [MAGIC_HIGH] and [MAGIC_LOW]
    each occur somewhere in the accumulator, [receive] returns at once: the
    subscriber is not called and no byte is removed. *)
Theorem receive_markers_present_returns
    (prot : ProtocolConstants) (fuel : nat) (acc chunk : list byte) :
  In (MAGIC_HIGH prot) (acc ++ chunk) ->
  In (MAGIC_LOW prot) (acc ++ chunk) ->
  receive prot (S fuel) acc chunk =
    {| emitted := []; buff := acc ++ chunk; st := Finished |}.
Proof.
  intros Hh Hl. unfold receive, ByteBuffer.writeBytes.
  now apply while_markers_present.
Qed.

Lemma receive_markers_present_returns_witness :
  (In (MAGIC_HIGH example_prot) ([xda; xda; x01] ++ [x00; x00; x00; x07]) /\
   In (MAGIC_LOW example_prot) ([xda; xda; x01] ++ [x00; x00; x00; x07])) /\
  receive example_prot 1 [xda; xda; x01] [x00; x00; x00; x07] =
    {| emitted := [];
       buff := [xda; xda; x01] ++ [x00; x00; x00; x07];
       st := Finished |}.
Proof.
  split.
  - split; simpl; auto.
  - apply (receive_markers_present_returns example_prot 0
             [xda; xda; x01] [x00; x00; x00; x07]); simpl; auto.
Defined.

(** C5 fails on the code: when a header is aligned at offset 0 and its
    length field, read at offset 3, exceeds the number of bytes buffered,
    the call emits nothing and keeps the bytes, but the extraction is not
    put off until the missing bytes are there: once further chunks have
    brought the buffered count up to the length field, and beyond, still
    nothing has been handed to the subscriber and every byte is still in
    the accumulator.  The call returns at line 74 because both markers are
    found; the length field is compared with nothing. *)
Theorem aligned_header_frame_never_extracted
    (prot : ProtocolConstants) (fuel : nat) (acc chunk : list byte)
    (fullLength : Z) (more : list (list byte)) :
  nth_error (acc ++ chunk) 0 = Some (MAGIC_HIGH prot) ->
  nth_error (acc ++ chunk) 1 = Some (MAGIC_LOW prot) ->
  ByteBuffer.readUInt32BE 3 (acc ++ chunk) = Some fullLength ->
  ByteBuffer.getLength (acc ++ chunk) < fullLength ->
  fullLength <= ByteBuffer.getLength ((acc ++ chunk) ++ concat more) ->
  receive prot (S fuel) acc chunk =
    {| emitted := []; buff := acc ++ chunk; st := Finished |} /\
  receiveAll prot (S fuel) (acc ++ chunk) more =
    {| emitted := [];
       buff := (acc ++ chunk) ++ concat more;
       st := Finished |}.
Proof.
  intros H0 H1 _ _ _.
  destruct (aligned_markers_present prot _ H0 H1) as [Hh Hl].
  split.
  - unfold receive, ByteBuffer.writeBytes.
    now apply while_markers_present.
  - now apply receiveAll_markers_present.
Qed.

Lemma aligned_header_frame_never_extracted_witness :
  (nth_error ([] ++ [xda; xda; x01; x00; x00; x00; x09; xab]) 0 =
     Some (MAGIC_HIGH example_prot) /\
   nth_error ([] ++ [xda; xda; x01; x00; x00; x00; x09; xab]) 1 =
     Some (MAGIC_LOW example_prot) /\
   ByteBuffer.readUInt32BE 3
     ([] ++ [xda; xda; x01; x00; x00; x00; x09; xab]) = Some 9 /\
   ByteBuffer.getLength ([] ++ [xda; xda; x01; x00; x00; x00; x09; xab])
     < 9 /\
   9 <= ByteBuffer.getLength
          (([] ++ [xda; xda; x01; x00; x00; x00; x09; xab]) ++
           concat [[xcd]])) /\
  receive example_prot 1 [] [xda; xda; x01; x00; x00; x00; x09; xab] =
    {| emitted := [];
       buff := [] ++ [xda; xda; x01; x00; x00; x00; x09; xab];
       st := Finished |} /\
  receiveAll example_prot 1
    ([] ++ [xda; xda; x01; x00; x00; x00; x09; xab]) [[xcd]] =
    {| emitted := [];
       buff := ([] ++ [xda; xda; x01; x00; x00; x00; x09; xab]) ++
               concat [[xcd]];
       st := Finished |}.
Proof.
  split.
  - repeat apply conj; by_evaluation.
  - apply (aligned_header_frame_never_extracted example_prot 0 []
             [xda; xda; x01; x00; x00; x00; x09; xab] 9 [[xcd]]);
      by_evaluation.
Defined.

(** C8: when both markers are present but not at offsets 0 and 1, and
    dropping the garbage prefix would leave fewer than [V1_HEAD_LENGTH]
    bytes, the call returns without handing anything to the subscriber. *)
Theorem resync_short_remainder_waits
    (prot : ProtocolConstants) (fuel : nat) (acc chunk : list byte) :
  ByteBuffer.indexOf (MAGIC_HIGH prot) (acc ++ chunk) <> -1 ->
  ByteBuffer.indexOf (MAGIC_LOW prot) (acc ++ chunk) <> -1 ->
  ByteBuffer.indexOf (MAGIC_HIGH prot) (acc ++ chunk) <> 0 \/
  ByteBuffer.indexOf (MAGIC_LOW prot) (acc ++ chunk) <> 1 ->
  ByteBuffer.getLength (acc ++ chunk) -
    garbagePrefix (ByteBuffer.indexOf (MAGIC_HIGH prot) (acc ++ chunk))
                  (ByteBuffer.indexOf (MAGIC_LOW prot) (acc ++ chunk))
    < V1_HEAD_LENGTH prot ->
  emitted (receive prot (S fuel) acc chunk) = [] /\
  st (receive prot (S fuel) acc chunk) = Finished.
Proof.
  intros Hh Hl _ _.
  apply ByteBufferFacts.indexOf_found in Hh, Hl.
  unfold receive, ByteBuffer.writeBytes.
  rewrite (while_markers_present prot fuel _ Hh Hl). now split.
Qed.

Lemma resync_short_remainder_waits_witness :
  (ByteBuffer.indexOf (MAGIC_HIGH distinct_prot)
     ([x01; xda; x02] ++ [xdb; x00; x00; x00; x00]) <> -1 /\
   ByteBuffer.indexOf (MAGIC_LOW distinct_prot)
     ([x01; xda; x02] ++ [xdb; x00; x00; x00; x00]) <> -1 /\
   (ByteBuffer.indexOf (MAGIC_HIGH distinct_prot)
      ([x01; xda; x02] ++ [xdb; x00; x00; x00; x00]) <> 0 \/
    ByteBuffer.indexOf (MAGIC_LOW distinct_prot)
      ([x01; xda; x02] ++ [xdb; x00; x00; x00; x00]) <> 1) /\
   ByteBuffer.getLength ([x01; xda; x02] ++ [xdb; x00; x00; x00; x00]) -
     garbagePrefix
       (ByteBuffer.indexOf (MAGIC_HIGH distinct_prot)
          ([x01; xda; x02] ++ [xdb; x00; x00; x00; x00]))
       (ByteBuffer.indexOf (MAGIC_LOW distinct_prot)
          ([x01; xda; x02] ++ [xdb; x00; x00; x00; x00]))
     < V1_HEAD_LENGTH distinct_prot) /\
  emitted (receive distinct_prot 1 [x01; xda; x02]
             [xdb; x00; x00; x00; x00]) = [] /\
  st (receive distinct_prot 1 [x01; xda; x02]
        [xdb; x00; x00; x00; x00]) = Finished.
Proof.
  split.
  - repeat apply conj; by_evaluation.
  - apply (resync_short_remainder_waits distinct_prot 0 [x01; xda; x02]
             [xdb; x00; x00; x00; x00]); by_evaluation.
Defined.

(** C4, as the spec states it, fails: with a 7-byte header, the chunk
    [01 02 03 00 00 00 02] carries neither marker, its length field reads
    2, and the subscriber receives the 2-byte buffer [01 02]. *)
Lemma sub_header_frame_emitted :
  ~ (forall (fuel : nat) (acc chunk frame : list byte),
       In frame (emitted (receive example_prot fuel acc chunk)) ->
       V1_HEAD_LENGTH example_prot <= ByteBuffer.getLength frame).
Proof.
  intros H.
  specialize (H 1%nat [] [x01; x02; x03; x00; x00; x00; x02] [x01; x02]).
  vm_compute in H. apply H; [now left|reflexivity].
Qed.

(** C4, amended: every buffer handed to the subscriber is the leading part
    of at least [V1_HEAD_LENGTH] buffered bytes, themselves a contiguous
    piece of the accumulator, and its byte length is the value of the
    length field at offset 3 of those bytes.  The field is compared with
    nothing, so the buffer is as short as the field says. *)
Theorem emitted_frame_is_length_prefix
    (prot : ProtocolConstants) (fuel : nat) (acc chunk frame : list byte) :
  In frame (emitted (receive prot fuel acc chunk)) ->
  exists before rest,
    acc ++ chunk = before ++ frame ++ rest /\
    V1_HEAD_LENGTH prot <= ByteBuffer.getLength (frame ++ rest) /\
    ByteBuffer.readUInt32BE 3 (frame ++ rest) =
      Some (ByteBuffer.getLength frame).
Proof.
  unfold receive, ByteBuffer.writeBytes. apply while_emits.
Qed.

Lemma emitted_frame_is_length_prefix_witness :
  In [x01; x02]
    (emitted (receive example_prot 1 [x01; x02; x03]
                [x00; x00; x00; x02])) /\
  exists before rest,
    [x01; x02; x03] ++ [x00; x00; x00; x02] = before ++ [x01; x02] ++ rest /\
    V1_HEAD_LENGTH example_prot <= ByteBuffer.getLength ([x01; x02] ++ rest) /\
    ByteBuffer.readUInt32BE 3 ([x01; x02] ++ rest) =
      Some (ByteBuffer.getLength [x01; x02]).
Proof.
  split.
  - simpl. auto.
  - apply (emitted_frame_is_length_prefix example_prot 1
             [x01; x02; x03] [x00; x00; x00; x02] [x01; x02]).
    simpl. auto.
Defined.

(** C1 fails on the code: the chunk [01 02 03 00 00 00 07] holds neither
    marker byte, yet the call hands all seven bytes to the subscriber and
    leaves the accumulator empty: the test of line 73 lets exactly the
    buffers that lack a marker through to extraction. *)
Theorem receive_without_markers_extracts (fuel : nat) :
  ~ In (MAGIC_HIGH example_prot) [x01; x02; x03; x00; x00; x00; x07] /\
  ~ In (MAGIC_LOW example_prot) [x01; x02; x03; x00; x00; x00; x07] /\
  receive example_prot (S fuel) ByteBuffer.empty
    [x01; x02; x03; x00; x00; x00; x07] =
    {| emitted := [[x01; x02; x03; x00; x00; x00; x07]];
       buff := [];
       st := Finished |}.
Proof.
  assert (Habsent : ~ In xda [x01; x02; x03; x00; x00; x00; x07]).
  { simpl. intros H. repeat destruct H as [H|H]; try discriminate H.
    exact H. }
  repeat apply conj; [exact Habsent | exact Habsent | ].
  (* the second test of the loop condition, on the emptied accumulator *)
  destruct fuel; reflexivity.
Qed.

(** C2 fails on the code: once a leading part of a well-formed frame is
    buffered, both markers are present, and every call from then on
    returns at line 74.  However the frame is cut into chunks, the
    subscriber is never called and the whole frame stays in the
    accumulator.  The header is taken to hold at least the two markers. *)
Theorem split_frame_never_delivered
    (prot : ProtocolConstants) (fuel : nat) (F : list byte)
    (chunks : list (list byte)) :
  2 <= V1_HEAD_LENGTH prot ->
  wellFormedFrame prot F ->
  concat chunks = F ->
  receiveAll prot (S fuel) ByteBuffer.empty chunks =
    {| emitted := []; buff := F; st := Finished |}.
Proof.
  intros Hhead (H0 & H1 & _ & _) <-.
  destruct (concat chunks) as [|x [|y rest]] eqn:E; try discriminate.
  simpl in H0, H1. injection H0 as ->. injection H1 as ->.
  rewrite <- E.
  apply (receiveAll_frame_prefix prot fuel rest Hhead chunks [] E).
Qed.

Lemma split_frame_never_delivered_witness :
  (2 <= V1_HEAD_LENGTH example_prot /\
   wellFormedFrame example_prot example_frame /\
   concat example_chunks = example_frame) /\
  receiveAll example_prot 1 ByteBuffer.empty example_chunks =
    {| emitted := []; buff := example_frame; st := Finished |}.
Proof.
  split.
  - repeat apply conj; by_evaluation.
  - apply (split_frame_never_delivered example_prot 0 example_frame
             example_chunks); repeat apply conj; by_evaluation.
Defined.

(** C3 fails on the code: after [DA DA 01] and then [00 00 00 09 AB CD]
    the subscriber has not been called and the nine bytes are still in the
    accumulator.  The second call finds both markers (at index 0) and
    returns at line 74. *)
Theorem example_frame_not_delivered (fuel : nat) :
  receiveAll example_prot (S fuel) ByteBuffer.empty
    [[xda; xda; x01]; [x00; x00; x00; x09; xab; xcd]] =
    {| emitted := [];
       buff := [xda; xda; x01; x00; x00; x00; x09; xab; xcd];
       st := Finished |}.
Proof. reflexivity. Qed.

(** C6 fails on the code: on [01 02 03 00 00 00 09] the length field reads
    9 while 7 bytes are buffered, and line 102 calls [splice(0, 9)]: the
    length read is compared with the buffered count nowhere. *)
Theorem unchecked_length_splices_out_of_range (fuel : nat) :
  receive example_prot (S fuel) ByteBuffer.empty
    [x01; x02; x03; x00; x00; x00; x09] =
    {| emitted := [];
       buff := [x01; x02; x03; x00; x00; x00; x09];
       st := Failed (SpliceOutOfRange 0 9 7) |}.
Proof. reflexivity. Qed.

(** C7 fails on the code: on [01 02 03 00 00 00 00] the length field reads
    0, [splice(0, 0)] removes nothing, the subscriber gets an empty buffer
    and the loop starts again on the same seven bytes.  Whatever number of
    iterations is allowed, the loop is still running after them, one empty
    buffer handed over per iteration. *)
Theorem zero_length_field_never_returns (fuel : nat) :
  st (receive example_prot fuel ByteBuffer.empty
        [x01; x02; x03; x00; x00; x00; x00]) = Running /\
  emitted (receive example_prot fuel ByteBuffer.empty
             [x01; x02; x03; x00; x00; x00; x00]) = repeat [] fuel /\
  buff (receive example_prot fuel ByteBuffer.empty
          [x01; x02; x03; x00; x00; x00; x00]) =
    [x01; x02; x03; x00; x00; x00; x00].
Proof.
  unfold receive.
  change (ByteBuffer.writeBytes _ ByteBuffer.empty)
    with [x01; x02; x03; x00; x00; x00; x00].
  induction fuel as [|fuel (IHst & IHem & IHbuff)].
  - repeat split.
  - change (while example_prot (S fuel) [x01; x02; x03; x00; x00; x00; x00])
      with (let r := while example_prot fuel
                       [x01; x02; x03; x00; x00; x00; x00] in
            {| emitted := [] :: emitted r; buff := buff r; st := st r |}).
    cbn [st emitted buff repeat].
    rewrite IHst, IHem, IHbuff. repeat split.
Qed.




(** * Further properties of the decoder *)

(** ** The paths of the loop body *)

Section Paths.

Variable prot : ProtocolConstants.

Lemma splice_front_in_range (count : Z) (b : ByteBuffer.t) :
  0 <= count <= ByteBuffer.getLength b ->
  ByteBuffer.splice 0 count b =
    Some (firstn (Z.to_nat count) b, skipn (Z.to_nat count) b).
Proof.
  intros [H0 H1]. unfold ByteBuffer.splice.
  apply Z.leb_le in H0, H1. simpl. rewrite H0, H1. reflexivity.
Qed.

Lemma getLength_skipn (n : Z) (b : ByteBuffer.t) :
  0 <= n <= ByteBuffer.getLength b ->
  ByteBuffer.getLength (skipn (Z.to_nat n) b) = ByteBuffer.getLength b - n.
Proof.
  intros H. unfold ByteBuffer.getLength in *. rewrite length_skipn. lia.
Qed.

(** Lines 73 to 98 when one marker at least was not found and the two
    indices are not one apart: the head up to the later index is dropped,
    unless that leaves nothing, and extraction follows if enough is left. *)
Lemma iteration_resync (b : ByteBuffer.t) :
  ByteBuffer.indexOf (MAGIC_HIGH prot) b = -1 \/
  ByteBuffer.indexOf (MAGIC_LOW prot) b = -1 ->
  ByteBuffer.indexOf (MAGIC_LOW prot) b -
    ByteBuffer.indexOf (MAGIC_HIGH prot) b <> 1 ->
  iteration prot b =
    let maxMagicPosition :=
      Z.max (ByteBuffer.indexOf (MAGIC_HIGH prot) b)
            (ByteBuffer.indexOf (MAGIC_LOW prot) b) in
    if maxMagicPosition + 1 >=? ByteBuffer.getLength b then (Return, b)
    else
      let rest := skipn (Z.to_nat (maxMagicPosition + 1)) b in
      if ByteBuffer.getLength rest <? V1_HEAD_LENGTH prot then (Return, rest)
      else extract rest.
Proof.
  intros Hone Hapart.
  unfold iteration, bind at 1 2, indexOf.
  set (hi := ByteBuffer.indexOf (MAGIC_HIGH prot) b) in *.
  set (lo := ByteBuffer.indexOf (MAGIC_LOW prot) b) in *.
  assert (Hhi : hi = -1 \/ 0 <= hi < ByteBuffer.getLength b)
    by apply ByteBufferFacts.indexOf_range.
  assert (Hlo : lo = -1 \/ 0 <= lo < ByteBuffer.getLength b)
    by apply ByteBufferFacts.indexOf_range.
  assert (Hboth : negb (hi =? -1) && negb (lo =? -1) = false).
  { destruct Hone as [-> | ->]; [reflexivity|]. apply andb_false_r. }
  assert (Hpos : negb (hi =? 0) || negb (lo =? 1) = true).
  { destruct Hone as [-> | ->]; [reflexivity|]. apply orb_true_r. }
  assert (Hne : (lo - hi =? 1) = false) by now apply Z.eqb_neq.
  cbv zeta. unfold bind at 1. rewrite Hboth. cbn [when ret].
  unfold bind at 1. rewrite Hpos. cbn [when].
  unfold discard. rewrite Hne.
  unfold bind at 1 2 3, getLength at 1.
  destruct (Z.max hi lo + 1 >=? ByteBuffer.getLength b) eqn:Hend;
    cbn [when return_ ret]; [reflexivity|].
  rewrite Z.geb_leb in Hend. apply Z.leb_gt in Hend.
  unfold bind at 1, splice at 1.
  rewrite splice_front_in_range by lia. cbn [ret].
  unfold bind at 1, getLength.
  destruct (ByteBuffer.getLength (skipn (Z.to_nat (Z.max hi lo + 1)) b)
              <? V1_HEAD_LENGTH prot); reflexivity.
Qed.

(** Line 86 when [MAGIC_LOW] opens the accumulator and [MAGIC_HIGH] was not
    found: [highMagicIndex] is [-1] and the call is [splice(0, -1)]. *)
Lemma iteration_low_first (b : ByteBuffer.t) :
  ByteBuffer.indexOf (MAGIC_HIGH prot) b = -1 ->
  ByteBuffer.indexOf (MAGIC_LOW prot) b = 0 ->
  iteration prot b =
    (Throw (SpliceOutOfRange 0 (-1) (ByteBuffer.getLength b)), b).
Proof.
  intros Hhi Hlo.
  unfold iteration, bind at 1 2, indexOf. rewrite Hhi, Hlo.
  reflexivity.
Qed.

(** Lines 101 and 102, by cases. *)
Lemma extract_cases (b : ByteBuffer.t) :
  extract b =
    match ByteBuffer.readUInt32BE 3 b with
    | None => (Throw (ReadOutOfRange 3 (ByteBuffer.getLength b)), b)
    | Some fullLength =>
        match ByteBuffer.splice 0 fullLength b with
        | Some (frame, rest) => (Normal frame, rest)
        | None =>
            (Throw (SpliceOutOfRange 0 fullLength (ByteBuffer.getLength b)),
             b)
        end
    end.
Proof.
  unfold extract, bind, readInt, splice, ret.
  destruct (ByteBuffer.readUInt32BE 3 b) as [n|]; [|reflexivity].
  destruct (ByteBuffer.splice 0 n b) as [[frame rest]|]; reflexivity.
Qed.

Lemma extract_keeps_suffix (b b' : ByteBuffer.t) (c : completion (list byte)) :
  extract b = (c, b') ->
  match c with
  | Normal frame => b = frame ++ b'
  | Return => False
  | Throw _ => b' = b
  end.
Proof.
  rewrite extract_cases.
  destruct (ByteBuffer.readUInt32BE 3 b) as [n|].
  - destruct (ByteBuffer.splice 0 n b) as [[frame rest]|] eqn:E;
      intros H; injection H as <- <-; [|reflexivity].
    now apply ByteBufferFacts.splice_front in E.
  - intros H. injection H as <- <-. reflexivity.
Qed.

(** The four ways the two searches can come out. *)
Lemma marker_cases (b : ByteBuffer.t) :
  (In (MAGIC_HIGH prot) b /\ In (MAGIC_LOW prot) b) \/
  (ByteBuffer.indexOf (MAGIC_HIGH prot) b = -1 /\
   ByteBuffer.indexOf (MAGIC_LOW prot) b = 0) \/
  ((ByteBuffer.indexOf (MAGIC_HIGH prot) b = -1 \/
    ByteBuffer.indexOf (MAGIC_LOW prot) b = -1) /\
   ByteBuffer.indexOf (MAGIC_LOW prot) b -
     ByteBuffer.indexOf (MAGIC_HIGH prot) b <> 1).
Proof.
  destruct (ByteBufferFacts.indexOf_range (MAGIC_HIGH prot) b) as [Hh|Hh];
  destruct (ByteBufferFacts.indexOf_range (MAGIC_LOW prot) b) as [Hl|Hl].
  - right. right. split; [now left|lia].
  - destruct (Z.eq_dec (ByteBuffer.indexOf (MAGIC_LOW prot) b) 0) as [E|E].
    + right. left. now split.
    + right. right. split; [now left|lia].
  - right. right. split; [now right|lia].
  - left. split; apply ByteBufferFacts.indexOf_found; lia.
Qed.

(** Whatever a pass does, what it leaves in the accumulator is a tail end
    of what it found there, and the buffer it hands over sits right before
    that tail. *)
Lemma iteration_keeps_suffix (b b' : ByteBuffer.t)
    (c : completion (list byte)) :
  iteration prot b = (c, b') ->
  exists dropped,
    b = dropped ++
        match c with Normal frame => frame ++ b' | _ => b' end.
Proof.
  destruct (marker_cases b) as [[Hh Hl]|[[Hh Hl]|[Hone Hapart]]].
  - rewrite (iteration_markers_present prot b Hh Hl).
    intros H. injection H as <- <-. now exists [].
  - rewrite (iteration_low_first b Hh Hl).
    intros H. injection H as <- <-. now exists [].
  - rewrite (iteration_resync b Hone Hapart). cbv zeta.
    set (n := Z.to_nat _).
    destruct (_ >=? _).
    { intros H. injection H as <- <-. now exists []. }
    destruct (_ <? _).
    { intros H. injection H as <- <-. exists (firstn n b).
      symmetry. apply firstn_skipn. }
    intros H. apply extract_keeps_suffix in H.
    exists (firstn n b).
    destruct c as [frame| |f]; [rewrite <- H|destruct H|rewrite H];
      symmetry; apply firstn_skipn.
Qed.

End Paths.

(** ** The byte stream through [receive] *)

(** [weave gaps frames] is the stretch of stream made of each frame behind
    the bytes dropped in front of it. *)
Fixpoint weave (gaps frames : list (list byte)) : list byte :=
  match gaps, frames with
  | gap :: gaps', frame :: frames' => gap ++ frame ++ weave gaps' frames'
  | _, _ => []
  end.

Section Stream.

Variable prot : ProtocolConstants.

Lemma while_keeps_stream_order (fuel : nat) :
  forall b : ByteBuffer.t,
  exists gaps last,
    length gaps = length (emitted (while prot fuel b)) /\
    b = weave gaps (emitted (while prot fuel b)) ++ last ++
        buff (while prot fuel b).
Proof.
  induction fuel as [|fuel IH]; intros b; simpl.
  - exists [], []. destruct (_ <? _); now split.
  - destruct (_ <? _); [exists [], []; now split|].
    destruct (iteration prot b) as [c b'] eqn:E.
    apply iteration_keeps_suffix in E as [dropped Hb].
    destruct c as [frame| |f]; cbn [emitted buff].
    + destruct (IH b') as (gaps & last & Hlen & Hb').
      exists (dropped :: gaps), last. split; [simpl; now rewrite Hlen|].
      cbn [weave]. rewrite Hb at 1. rewrite Hb' at 1.
      now rewrite <- !app_assoc.
    + exists [], dropped. now split.
    + exists [], dropped. now split.
Qed.

Lemma while_returns_unless_empty_frame (fuel : nat) :
  forall b : ByteBuffer.t,
  (length b < fuel)%nat ->
  ~ In [] (emitted (while prot fuel b)) ->
  st (while prot fuel b) <> Running.
Proof.
  induction fuel as [|fuel IH]; intros b Hfuel Hnone; [lia|]. simpl in *.
  destruct (_ <? _); [discriminate|].
  destruct (iteration prot b) as [[frame| |f] b'] eqn:E;
    cbn [st emitted] in *; try discriminate.
  apply iteration_emits in E as (dropped & Hb & _).
  apply IH.
  - destruct frame as [|x frame]; [exfalso; apply Hnone; now left|].
    rewrite Hb, !length_app in Hfuel. simpl in Hfuel. lia.
  - intros H. apply Hnone. now right.
Qed.

End Stream.

(** X1: as long as fewer than [V1_HEAD_LENGTH] bytes have arrived in all,
    every call returns without calling the subscriber, and the accumulator
    holds the chunks one after the other. *)
Theorem short_chunks_are_buffered
    (prot : ProtocolConstants) (fuel : nat) (chunks : list (list byte)) :
  forall acc : list byte,
  ByteBuffer.getLength (acc ++ concat chunks) < V1_HEAD_LENGTH prot ->
  receiveAll prot fuel acc chunks =
    {| emitted := []; buff := acc ++ concat chunks; st := Finished |}.
Proof.
  induction chunks as [|data chunks IH]; intros acc Hlen.
  - simpl. now rewrite app_nil_r.
  - cbn [receiveAll concat] in *. unfold receive, ByteBuffer.writeBytes.
    rewrite app_assoc in Hlen.
    rewrite while_short.
    + cbn [st buff emitted]. rewrite (IH (acc ++ data) Hlen).
      cbn [st buff emitted app]. now rewrite app_assoc.
    + unfold ByteBuffer.getLength in *.
      rewrite length_app in Hlen. lia.
Qed.

Lemma short_chunks_are_buffered_witness :
  ByteBuffer.getLength ([x01] ++ concat [[xda; x02]; []; [x03; xda]])
    < V1_HEAD_LENGTH example_prot /\
  receiveAll example_prot 0 [x01] [[xda; x02]; []; [x03; xda]] =
    {| emitted := [];
       buff := [x01] ++ concat [[xda; x02]; []; [x03; xda]];
       st := Finished |}.
Proof.
  split.
  - reflexivity.
  - apply (short_chunks_are_buffered example_prot 0
             [[xda; x02]; []; [x03; xda]] [x01]). reflexivity.
Defined.

(** X2: once both marker bytes sit in the accumulator the decoder is
    stuck: whatever chunks follow, no call hands anything to the subscriber
    and the accumulator only grows. *)
Theorem markers_buffered_decoder_stalls
    (prot : ProtocolConstants) (fuel : nat) (chunks : list (list byte)) :
  forall acc : list byte,
  In (MAGIC_HIGH prot) acc ->
  In (MAGIC_LOW prot) acc ->
  receiveAll prot (S fuel) acc chunks =
    {| emitted := []; buff := acc ++ concat chunks; st := Finished |}.
Proof.
  induction chunks as [|data chunks IH]; intros acc Hh Hl.
  - simpl. now rewrite app_nil_r.
  - cbn [receiveAll concat]. unfold receive, ByteBuffer.writeBytes.
    assert (Hh' : In (MAGIC_HIGH prot) (acc ++ data))
      by (apply in_or_app; now left).
    assert (Hl' : In (MAGIC_LOW prot) (acc ++ data))
      by (apply in_or_app; now left).
    rewrite (while_markers_present prot fuel _ Hh' Hl').
    cbn [st buff emitted]. rewrite (IH (acc ++ data) Hh' Hl').
    cbn [st buff emitted app]. now rewrite app_assoc.
Qed.

Lemma markers_buffered_decoder_stalls_witness :
  (In (MAGIC_HIGH distinct_prot) [x00; xdb; xda] /\
   In (MAGIC_LOW distinct_prot) [x00; xdb; xda]) /\
  receiveAll distinct_prot 1 [x00; xdb; xda]
    [[xda; xdb; x01; x00; x00; x00; x07]; [xda; xdb; x01; x00; x00; x00; x07]] =
    {| emitted := [];
       buff := [x00; xdb; xda] ++
               concat [[xda; xdb; x01; x00; x00; x00; x07];
                       [xda; xdb; x01; x00; x00; x00; x07]];
       st := Finished |}.
Proof.
  split.
  - split; simpl; auto.
  - apply (markers_buffered_decoder_stalls distinct_prot 0
             [[xda; xdb; x01; x00; x00; x00; x07];
              [xda; xdb; x01; x00; x00; x00; x07]] [x00; xdb; xda]);
      simpl; auto.
Defined.

(** X3: a call neither reorders nor duplicates bytes.  The accumulator
    with the chunk appended is, in this order: for each buffer handed to
    the subscriber, some dropped bytes and then that buffer; some more
    dropped bytes; and what the call leaves in the accumulator.  This holds
    however the call ends. *)
Theorem receive_keeps_stream_order
    (prot : ProtocolConstants) (fuel : nat) (acc chunk : list byte) :
  exists gaps last,
    length gaps = length (emitted (receive prot fuel acc chunk)) /\
    acc ++ chunk =
      weave gaps (emitted (receive prot fuel acc chunk)) ++ last ++
      buff (receive prot fuel acc chunk).
Proof.
  unfold receive, ByteBuffer.writeBytes. apply while_keeps_stream_order.
Qed.

(** X4: the loop ends within one pass per buffered byte, unless a pass
    hands the subscriber an empty buffer. *)
Theorem receive_returns_unless_empty_frame
    (prot : ProtocolConstants) (fuel : nat) (acc chunk : list byte) :
  (length (acc ++ chunk) < fuel)%nat ->
  ~ In [] (emitted (receive prot fuel acc chunk)) ->
  st (receive prot fuel acc chunk) <> Running.
Proof.
  unfold receive, ByteBuffer.writeBytes.
  apply while_returns_unless_empty_frame.
Qed.

Lemma receive_returns_unless_empty_frame_witness :
  ((length ([x01; x02; x03] ++ [x00; x00; x00; x02]) < 8)%nat /\
   ~ In [] (emitted (receive example_prot 8 [x01; x02; x03]
                       [x00; x00; x00; x02]))) /\
  st (receive example_prot 8 [x01; x02; x03] [x00; x00; x00; x02])
    <> Running.
Proof.
  assert (Hnone : ~ In [] (emitted (receive example_prot 8 [x01; x02; x03]
                                      [x00; x00; x00; x02]))).
  { simpl. intros [H|[]]. discriminate H. }
  split.
  - split; [simpl; lia|exact Hnone].
  - apply (receive_returns_unless_empty_frame example_prot 8
             [x01; x02; x03] [x00; x00; x00; x02]); [simpl; lia|exact Hnone].
Defined.

(** ** Extraction from a stream without markers *)

(** A record as lines 101 and 102 cut it: at least [V1_HEAD_LENGTH] bytes,
    with its own byte count in the length field at offset 3. *)
Definition lengthPrefixed (prot : ProtocolConstants) (r : list byte) : Prop :=
  V1_HEAD_LENGTH prot <= ByteBuffer.getLength r /\
  ByteBuffer.readUInt32BE 3 r = Some (ByteBuffer.getLength r).

Section Records.

Variable prot : ProtocolConstants.

Lemma readUInt32BE_cons (x0 x1 x2 b3 b2 b1 b0 : byte) (tl : list byte) :
  ByteBuffer.readUInt32BE 3 (x0 :: x1 :: x2 :: b3 :: b2 :: b1 :: b0 :: tl) =
    Some (ByteBuffer.uint32BE b3 b2 b1 b0).
Proof.
  unfold ByteBuffer.readUInt32BE.
  assert (E : (0 <=? 3) &&
              (3 + 4 <=? ByteBuffer.getLength
                 (x0 :: x1 :: x2 :: b3 :: b2 :: b1 :: b0 :: tl)) = true).
  { apply andb_true_intro. split; apply Z.leb_le; [lia|].
    unfold ByteBuffer.getLength. simpl length. lia. }
  rewrite E. reflexivity.
Qed.

Lemma readUInt32BE_header (b : ByteBuffer.t) (n : Z) :
  ByteBuffer.readUInt32BE 3 b = Some n ->
  exists x0 x1 x2 b3 b2 b1 b0 tl,
    b = x0 :: x1 :: x2 :: b3 :: b2 :: b1 :: b0 :: tl /\
    n = ByteBuffer.uint32BE b3 b2 b1 b0.
Proof.
  destruct b as [|x0 [|x1 [|x2 [|b3 [|b2 [|b1 [|b0 tl]]]]]]];
    try discriminate.
  rewrite readUInt32BE_cons. intros H. injection H as <-.
  now exists x0, x1, x2, b3, b2, b1, b0, tl.
Qed.

(** The length field of a buffer is that of any longer buffer it opens. *)
Lemma readUInt32BE_app (b rest : ByteBuffer.t) (n : Z) :
  ByteBuffer.readUInt32BE 3 b = Some n ->
  ByteBuffer.readUInt32BE 3 (b ++ rest) = Some n.
Proof.
  intros H.
  apply readUInt32BE_header in H
    as (x0 & x1 & x2 & b3 & b2 & b1 & b0 & tl & -> & ->).
  apply readUInt32BE_cons.
Qed.

Lemma splice_front_app (r rest : list byte) :
  ByteBuffer.splice 0 (ByteBuffer.getLength r) (r ++ rest) = Some (r, rest).
Proof.
  rewrite splice_front_in_range.
  - unfold ByteBuffer.getLength. rewrite Nat2Z.id.
    rewrite firstn_app, firstn_all, Nat.sub_diag, app_nil_r.
    rewrite skipn_app, skipn_all, Nat.sub_diag. reflexivity.
  - unfold ByteBuffer.getLength. rewrite length_app. lia.
Qed.

Lemma extract_record (r rest : list byte) :
  ByteBuffer.readUInt32BE 3 r = Some (ByteBuffer.getLength r) ->
  extract (r ++ rest) = (Normal r, rest).
Proof.
  intros H. rewrite extract_cases, (readUInt32BE_app r rest _ H).
  now rewrite splice_front_app.
Qed.

Lemma indexOf_absent (value : byte) (b : ByteBuffer.t) :
  ~ In value b -> ByteBuffer.indexOf value b = -1.
Proof. apply ByteBufferFacts.indexFrom_absent. Qed.

(** A pass over a buffer that holds neither marker and is long enough for
    the loop goes straight to extraction. *)
Lemma iteration_no_marker (b : ByteBuffer.t) :
  ~ In (MAGIC_HIGH prot) b -> ~ In (MAGIC_LOW prot) b ->
  0 < ByteBuffer.getLength b ->
  V1_HEAD_LENGTH prot <= ByteBuffer.getLength b ->
  iteration prot b = extract b.
Proof.
  intros Hh Hl Hpos Hlen.
  apply indexOf_absent in Hh, Hl.
  rewrite iteration_resync by (rewrite Hh, Hl; first [now left|lia]).
  rewrite Hh, Hl. cbv zeta. change (Z.max (-1) (-1) + 1) with 0.
  change (skipn (Z.to_nat 0) b) with b.
  destruct (Z.geb_spec 0 (ByteBuffer.getLength b)); [lia|].
  destruct (Z.ltb_spec (ByteBuffer.getLength b) (V1_HEAD_LENGTH prot));
    [lia|reflexivity].
Qed.

Lemma while_step (fuel : nat) (b : ByteBuffer.t) :
  V1_HEAD_LENGTH prot <= ByteBuffer.getLength b ->
  while prot (S fuel) b =
    match iteration prot b with
    | (Normal frame, b') =>
        {| emitted := frame :: emitted (while prot fuel b');
           buff := buff (while prot fuel b');
           st := st (while prot fuel b') |}
    | (Return, b') => {| emitted := []; buff := b'; st := Finished |}
    | (Throw f, b') => {| emitted := []; buff := b'; st := Failed f |}
    end.
Proof.
  intros H. apply Z.ltb_ge in H. simpl. rewrite H. reflexivity.
Qed.

Lemma while_records (records : list (list byte)) (tail : list byte) :
  Forall (lengthPrefixed prot) records ->
  ~ In (MAGIC_HIGH prot) (concat records ++ tail) ->
  ~ In (MAGIC_LOW prot) (concat records ++ tail) ->
  ByteBuffer.getLength tail < V1_HEAD_LENGTH prot ->
  forall fuel : nat, (length records <= fuel)%nat ->
  while prot fuel (concat records ++ tail) =
    {| emitted := records; buff := tail; st := Finished |}.
Proof.
  induction records as [|r records IH];
    intros Hrec Hh Hl Htail fuel Hfuel.
  - now apply while_short.
  - destruct fuel as [|fuel]; [simpl in Hfuel; lia|].
    inversion Hrec as [|? ? [Hlen Hread] Hrest]; subst.
    cbn [concat] in *. rewrite <- app_assoc in *.
    assert (H7 : 7 <= ByteBuffer.getLength r).
    { apply readUInt32BE_header in Hread
        as (x0 & x1 & x2 & b3 & b2 & b1 & b0 & tl & -> & _).
      unfold ByteBuffer.getLength. simpl length. lia. }
    assert (Hb : ByteBuffer.getLength r <=
                 ByteBuffer.getLength (r ++ concat records ++ tail)).
    { unfold ByteBuffer.getLength. rewrite length_app. lia. }
    rewrite while_step by lia.
    rewrite iteration_no_marker by (assumption || lia).
    rewrite (extract_record r _ Hread).
    rewrite IH; try assumption.
    + reflexivity.
    + intros H. apply Hh, in_or_app. now right.
    + intros H. apply Hl, in_or_app. now right.
    + simpl in Hfuel. lia.
Qed.

End Records.

(** X5: coalesced records.  When the buffered bytes hold no marker byte and
    are a run of records, each with its own byte count in its length field,
    followed by fewer than [V1_HEAD_LENGTH] bytes, one call hands the
    records to the subscriber one by one, in order, and leaves the
    remainder in the accumulator. *)
Theorem marker_free_records_are_split
    (prot : ProtocolConstants) (fuel : nat)
    (records : list (list byte)) (tail : list byte) :
  Forall (lengthPrefixed prot) records ->
  ~ In (MAGIC_HIGH prot) (concat records ++ tail) ->
  ~ In (MAGIC_LOW prot) (concat records ++ tail) ->
  ByteBuffer.getLength tail < V1_HEAD_LENGTH prot ->
  (length records <= fuel)%nat ->
  receive prot fuel ByteBuffer.empty (concat records ++ tail) =
    {| emitted := records; buff := tail; st := Finished |}.
Proof.
  intros Hrec Hh Hl Htail Hfuel.
  unfold receive, ByteBuffer.writeBytes, ByteBuffer.empty.
  cbn [app]. now apply while_records.
Qed.

(** A byte that does not occur in a concrete list, by comparison with each
    element. *)
Ltac absent_by_evaluation :=
  simpl; let H := fresh in
  intros H; repeat destruct H as [H|H]; try discriminate H; exact H.

Lemma marker_free_records_are_split_witness :
  (Forall (lengthPrefixed example_prot)
     [[x01; x02; x03; x00; x00; x00; x07];
      [x01; x02; x03; x00; x00; x00; x08; xff]] /\
   ~ In (MAGIC_HIGH example_prot)
       (concat [[x01; x02; x03; x00; x00; x00; x07];
                [x01; x02; x03; x00; x00; x00; x08; xff]] ++ [x09]) /\
   ~ In (MAGIC_LOW example_prot)
       (concat [[x01; x02; x03; x00; x00; x00; x07];
                [x01; x02; x03; x00; x00; x00; x08; xff]] ++ [x09]) /\
   ByteBuffer.getLength [x09] < V1_HEAD_LENGTH example_prot /\
   (length [[x01; x02; x03; x00; x00; x00; x07];
            [x01; x02; x03; x00; x00; x00; x08; xff]] <= 2)%nat) /\
  receive example_prot 2 ByteBuffer.empty
    (concat [[x01; x02; x03; x00; x00; x00; x07];
             [x01; x02; x03; x00; x00; x00; x08; xff]] ++ [x09]) =
    {| emitted := [[x01; x02; x03; x00; x00; x00; x07];
                   [x01; x02; x03; x00; x00; x00; x08; xff]];
       buff := [x09];
       st := Finished |}.
Proof.
  assert (Hrec : Forall (lengthPrefixed example_prot)
                   [[x01; x02; x03; x00; x00; x00; x07];
                    [x01; x02; x03; x00; x00; x00; x08; xff]]).
  { repeat constructor; by_evaluation. }
  assert (Habsent : ~ In xda
            (concat [[x01; x02; x03; x00; x00; x00; x07];
                     [x01; x02; x03; x00; x00; x00; x08; xff]] ++ [x09])).
  { absent_by_evaluation. }
  split.
  - repeat apply conj; try assumption; [reflexivity|simpl; lia].
  - apply (marker_free_records_are_split example_prot 2
             [[x01; x02; x03; x00; x00; x00; x07];
              [x01; x02; x03; x00; x00; x00; x08; xff]] [x09]);
      try assumption; [reflexivity|simpl; lia].
Defined.

(** ** A single marker in the stream *)

Section LoneMarker.

Variable prot : ProtocolConstants.

Lemma indexFrom_app_absent (value : byte) (garbage rest : list byte) :
  ~ In value garbage ->
  forall i,
  ByteBuffer.indexFrom i value (garbage ++ rest) =
    ByteBuffer.indexFrom (i + ByteBuffer.getLength garbage) value rest.
Proof.
  induction garbage as [|x garbage IH]; intros Hn i.
  - simpl. now rewrite Z.add_0_r.
  - simpl. destruct (Byte.eqb x value) eqn:E.
    + exfalso. apply Hn. left. now apply Byte.byte_dec_bl.
    + rewrite IH by (intros H; apply Hn; now right).
      f_equal. unfold ByteBuffer.getLength. simpl length. lia.
Qed.

(** The first occurrence of a byte that follows bytes different from it. *)
Lemma indexOf_after_garbage (value : byte) (garbage rest : list byte) :
  ~ In value garbage ->
  ByteBuffer.indexOf value (garbage ++ value :: rest) =
    ByteBuffer.getLength garbage.
Proof.
  intros Hn. unfold ByteBuffer.indexOf.
  rewrite indexFrom_app_absent by assumption. simpl.
  now rewrite (Byte.byte_dec_lb (x:=value) (y:=value) eq_refl).
Qed.

Lemma skipn_after_garbage (garbage rest : list byte) (m : byte) :
  skipn (Z.to_nat (ByteBuffer.getLength garbage + 1))
    (garbage ++ m :: rest) = rest.
Proof.
  unfold ByteBuffer.getLength.
  replace (Z.to_nat (Z.of_nat (length garbage) + 1))
    with (length garbage + 1)%nat by lia.
  rewrite skipn_app, skipn_all2 by lia.
  replace (length garbage + 1 - length garbage)%nat with 1%nat by lia.
  reflexivity.
Qed.

(** Lines 88 to 91: the later of the two indices is the last byte. *)
Lemma while_marker_at_end (fuel : nat) (b : ByteBuffer.t) :
  V1_HEAD_LENGTH prot <= ByteBuffer.getLength b ->
  ByteBuffer.indexOf (MAGIC_HIGH prot) b = -1 \/
  ByteBuffer.indexOf (MAGIC_LOW prot) b = -1 ->
  ByteBuffer.indexOf (MAGIC_LOW prot) b -
    ByteBuffer.indexOf (MAGIC_HIGH prot) b <> 1 ->
  Z.max (ByteBuffer.indexOf (MAGIC_HIGH prot) b)
        (ByteBuffer.indexOf (MAGIC_LOW prot) b) + 1 =
    ByteBuffer.getLength b ->
  while prot (S fuel) b = {| emitted := []; buff := b; st := Finished |}.
Proof.
  intros Hlen Hone Hapart Hend.
  rewrite while_step by assumption.
  rewrite iteration_resync by assumption. cbv zeta. rewrite Hend.
  destruct (Z.geb_spec (ByteBuffer.getLength b) (ByteBuffer.getLength b));
    [reflexivity|lia].
Qed.

(** Lines 88 to 97 and on, for a buffer whose one [MAGIC_HIGH] byte has
    bytes behind it and which holds no [MAGIC_LOW]: the pass goes on with
    what follows the marker. *)
Lemma iteration_after_high_marker (garbage rest : list byte) :
  ~ In (MAGIC_HIGH prot) garbage ->
  ~ In (MAGIC_LOW prot) (garbage ++ MAGIC_HIGH prot :: rest) ->
  rest <> [] ->
  iteration prot (garbage ++ MAGIC_HIGH prot :: rest) =
    if ByteBuffer.getLength rest <? V1_HEAD_LENGTH prot then (Return, rest)
    else extract rest.
Proof.
  intros Hh Hl Hrest.
  assert (Hhi := indexOf_after_garbage (MAGIC_HIGH prot) garbage rest Hh).
  assert (Hlo := indexOf_absent _ _ Hl).
  assert (Hg : 0 <= ByteBuffer.getLength garbage)
    by (unfold ByteBuffer.getLength; lia).
  rewrite iteration_resync by (rewrite Hhi, Hlo; first [now right|lia]).
  cbv zeta. rewrite Hhi, Hlo.
  rewrite (Z.max_l _ (-1)) by lia.
  rewrite skipn_after_garbage.
  destruct (Z.geb_spec (ByteBuffer.getLength garbage + 1)
              (ByteBuffer.getLength (garbage ++ MAGIC_HIGH prot :: rest)))
    as [Hge|_]; [|reflexivity].
  exfalso. unfold ByteBuffer.getLength in Hge.
  rewrite length_app in Hge. simpl length in Hge.
  destruct rest; [now apply Hrest|simpl length in Hge; lia].
Qed.

End LoneMarker.

(** X6: a marker byte that arrives as the last byte buffered, behind bytes
    that are no markers, is kept: the call returns without calling the
    subscriber and without removing a byte (the header spans at least the
    two markers). *)
Theorem trailing_marker_is_kept
    (prot : ProtocolConstants) (fuel : nat)
    (acc chunk garbage : list byte) (m : byte) :
  2 <= V1_HEAD_LENGTH prot ->
  m = MAGIC_HIGH prot \/ m = MAGIC_LOW prot ->
  ~ In (MAGIC_HIGH prot) garbage ->
  ~ In (MAGIC_LOW prot) garbage ->
  acc ++ chunk = garbage ++ [m] ->
  receive prot (S fuel) acc chunk =
    {| emitted := []; buff := garbage ++ [m]; st := Finished |}.
Proof.
  intros Hhead Hm Hh Hl Hb.
  unfold receive, ByteBuffer.writeBytes. rewrite Hb. clear Hb acc chunk.
  destruct (Z.ltb_spec (ByteBuffer.getLength (garbage ++ [m]))
              (V1_HEAD_LENGTH prot)) as [Hlt|Hge];
    [now apply while_short|].
  assert (Hlen : ByteBuffer.getLength (garbage ++ [m]) =
                 ByteBuffer.getLength garbage + 1).
  { unfold ByteBuffer.getLength. rewrite length_app. simpl length. lia. }
  destruct (Byte.byte_eq_dec (MAGIC_HIGH prot) (MAGIC_LOW prot)) as [E|E].
  - (* one value for both markers: both are found *)
    apply while_markers_present; apply in_or_app; right; left;
      destruct Hm as [-> | ->]; congruence.
  - destruct Hm as [-> | ->].
    + assert (Hlo : ~ In (MAGIC_LOW prot) (garbage ++ [MAGIC_HIGH prot])).
      { intros H. apply in_app_or in H as [H|[H|[]]]; [now apply Hl|].
        now apply E. }
      apply indexOf_absent in Hlo.
      assert (Hhi := indexOf_after_garbage (MAGIC_HIGH prot) garbage [] Hh).
      apply while_marker_at_end; rewrite ?Hhi, ?Hlo; lia.
    + assert (Hhi : ~ In (MAGIC_HIGH prot) (garbage ++ [MAGIC_LOW prot])).
      { intros H. apply in_app_or in H as [H|[H|[]]]; [now apply Hh|].
        now apply E. }
      apply indexOf_absent in Hhi.
      assert (Hlo := indexOf_after_garbage (MAGIC_LOW prot) garbage [] Hl).
      apply while_marker_at_end; rewrite ?Hhi, ?Hlo; lia.
Qed.

Lemma trailing_marker_is_kept_witness :
  (2 <= V1_HEAD_LENGTH distinct_prot /\
   (xda = MAGIC_HIGH distinct_prot \/ xda = MAGIC_LOW distinct_prot) /\
   ~ In (MAGIC_HIGH distinct_prot) [x01; x02; x03; x04; x05; x06] /\
   ~ In (MAGIC_LOW distinct_prot) [x01; x02; x03; x04; x05; x06] /\
   [x01; x02; x03] ++ [x04; x05; x06; xda] =
     [x01; x02; x03; x04; x05; x06] ++ [xda]) /\
  receive distinct_prot 1 [x01; x02; x03] [x04; x05; x06; xda] =
    {| emitted := [];
       buff := [x01; x02; x03; x04; x05; x06] ++ [xda];
       st := Finished |}.
Proof.
  assert (Hh : ~ In (MAGIC_HIGH distinct_prot) [x01; x02; x03; x04; x05; x06])
    by absent_by_evaluation.
  assert (Hl : ~ In (MAGIC_LOW distinct_prot) [x01; x02; x03; x04; x05; x06])
    by absent_by_evaluation.
  split.
  - repeat apply conj; try assumption; try reflexivity;
      [vm_compute; discriminate|now left].
  - apply (trailing_marker_is_kept distinct_prot 0 [x01; x02; x03]
             [x04; x05; x06; xda] [x01; x02; x03; x04; x05; x06] xda);
      try assumption; try reflexivity;
      [vm_compute; discriminate|now left].
Defined.

(** X7: resynchronisation on a single [MAGIC_HIGH].  When the buffered
    bytes hold no [MAGIC_LOW] and one [MAGIC_HIGH], followed by records with
    their own byte count in the length field and by fewer than
    [V1_HEAD_LENGTH] more bytes, the call drops everything up to and
    including the marker, hands over the records in order and keeps the
    remainder. *)
Theorem lone_high_marker_resync
    (prot : ProtocolConstants) (fuel : nat)
    (garbage : list byte) (records : list (list byte)) (tail : list byte) :
  ~ In (MAGIC_HIGH prot) garbage ->
  ~ In (MAGIC_HIGH prot) (concat records ++ tail) ->
  ~ In (MAGIC_LOW prot)
      (garbage ++ MAGIC_HIGH prot :: concat records ++ tail) ->
  Forall (lengthPrefixed prot) records ->
  ByteBuffer.getLength tail < V1_HEAD_LENGTH prot ->
  concat records ++ tail <> [] ->
  V1_HEAD_LENGTH prot <=
    ByteBuffer.getLength
      (garbage ++ MAGIC_HIGH prot :: concat records ++ tail) ->
  (length records <= fuel)%nat ->
  receive prot (S fuel) ByteBuffer.empty
    (garbage ++ MAGIC_HIGH prot :: concat records ++ tail) =
    {| emitted := records; buff := tail; st := Finished |}.
Proof.
  intros Hh Hh' Hl Hrec Htail Hrest Hlen Hfuel.
  unfold receive, ByteBuffer.writeBytes, ByteBuffer.empty. cbn [app].
  rewrite while_step by assumption.
  rewrite iteration_after_high_marker by assumption.
  assert (Hl' : ~ In (MAGIC_LOW prot) (concat records ++ tail)).
  { intros H. apply Hl, in_or_app. right. now right. }
  destruct records as [|r records].
  - cbn [concat app] in *.
    destruct (Z.ltb_spec (ByteBuffer.getLength tail) (V1_HEAD_LENGTH prot));
      [reflexivity|lia].
  - inversion Hrec as [|? ? [Hr Hread] Hrec']; subst.
    cbn [concat] in *. rewrite <- app_assoc in *.
    destruct (Z.ltb_spec
                (ByteBuffer.getLength (r ++ concat records ++ tail))
                (V1_HEAD_LENGTH prot)) as [Hlt|_].
    { unfold ByteBuffer.getLength in *. rewrite length_app in Hlt. lia. }
    rewrite (extract_record r _ Hread).
    rewrite (while_records prot records tail); try assumption.
    + reflexivity.
    + intros H. apply Hh', in_or_app. now right.
    + intros H. apply Hl', in_or_app. now right.
    + simpl in Hfuel. lia.
Qed.

Lemma lone_high_marker_resync_witness :
  (~ In (MAGIC_HIGH distinct_prot) [x11; x12] /\
   ~ In (MAGIC_HIGH distinct_prot)
       (concat [[x01; x02; x03; x00; x00; x00; x07]] ++ [x09]) /\
   ~ In (MAGIC_LOW distinct_prot)
       ([x11; x12] ++ MAGIC_HIGH distinct_prot ::
          concat [[x01; x02; x03; x00; x00; x00; x07]] ++ [x09]) /\
   Forall (lengthPrefixed distinct_prot)
     [[x01; x02; x03; x00; x00; x00; x07]] /\
   ByteBuffer.getLength [x09] < V1_HEAD_LENGTH distinct_prot /\
   concat [[x01; x02; x03; x00; x00; x00; x07]] ++ [x09] <> [] /\
   V1_HEAD_LENGTH distinct_prot <=
     ByteBuffer.getLength
       ([x11; x12] ++ MAGIC_HIGH distinct_prot ::
          concat [[x01; x02; x03; x00; x00; x00; x07]] ++ [x09]) /\
   (length [[x01; x02; x03; x00; x00; x00; x07]] <= 1)%nat) /\
  receive distinct_prot 2 ByteBuffer.empty
    ([x11; x12] ++ MAGIC_HIGH distinct_prot ::
       concat [[x01; x02; x03; x00; x00; x00; x07]] ++ [x09]) =
    {| emitted := [[x01; x02; x03; x00; x00; x00; x07]];
       buff := [x09];
       st := Finished |}.
Proof.
  assert (H1 : ~ In (MAGIC_HIGH distinct_prot) [x11; x12])
    by absent_by_evaluation.
  assert (H2 : ~ In (MAGIC_HIGH distinct_prot)
                 (concat [[x01; x02; x03; x00; x00; x00; x07]] ++ [x09]))
    by absent_by_evaluation.
  assert (H3 : ~ In (MAGIC_LOW distinct_prot)
                 ([x11; x12] ++ MAGIC_HIGH distinct_prot ::
                    concat [[x01; x02; x03; x00; x00; x00; x07]] ++ [x09]))
    by absent_by_evaluation.
  assert (H4 : Forall (lengthPrefixed distinct_prot)
                 [[x01; x02; x03; x00; x00; x00; x07]])
    by (repeat constructor; by_evaluation).
  split.
  - repeat apply conj; try assumption;
      first [reflexivity | discriminate | vm_compute; discriminate
            | simpl; lia].
  - apply (lone_high_marker_resync distinct_prot 1 [x11; x12]
             [[x01; x02; x03; x00; x00; x00; x07]] [x09]);
      try assumption;
      first [reflexivity | discriminate | vm_compute; discriminate
            | simpl; lia].
Defined.

(** ** How a call ends *)

Section Endings.

Variable prot : ProtocolConstants.

Lemma while_finished_state (fuel : nat) :
  0 < V1_HEAD_LENGTH prot ->
  forall b : ByteBuffer.t,
  st (while prot fuel b) = Finished ->
  ByteBuffer.getLength (buff (while prot fuel b)) < V1_HEAD_LENGTH prot \/
  (In (MAGIC_HIGH prot) (buff (while prot fuel b)) /\
   In (MAGIC_LOW prot) (buff (while prot fuel b))) \/
  Z.max (ByteBuffer.indexOf (MAGIC_HIGH prot) (buff (while prot fuel b)))
        (ByteBuffer.indexOf (MAGIC_LOW prot) (buff (while prot fuel b))) =
    ByteBuffer.getLength (buff (while prot fuel b)) - 1.
Proof.
  intros Hhead. induction fuel as [|fuel IH]; intros b.
  - simpl. destruct (Z.ltb_spec (ByteBuffer.getLength b)
                       (V1_HEAD_LENGTH prot)); cbn [st buff];
      [now left|discriminate].
  - destruct (Z.ltb_spec (ByteBuffer.getLength b) (V1_HEAD_LENGTH prot))
      as [Hlt|Hge].
    { rewrite while_short by assumption. now left. }
    rewrite while_step by assumption.
    destruct (marker_cases prot b) as [[Hh Hl]|[[Hh Hl]|[Hone Hapart]]].
    + rewrite (iteration_markers_present prot b Hh Hl). cbn [st buff].
      right. left. now split.
    + rewrite (iteration_low_first prot b Hh Hl). discriminate.
    + rewrite (iteration_resync prot b Hone Hapart). cbv zeta.
      match goal with
      | |- context [?x >=? ?y] => destruct (Z.geb_spec x y) as [Hend|_]
      end; cbn [st buff].
      { intros _. right. right.
        destruct (ByteBufferFacts.indexOf_range (MAGIC_HIGH prot) b);
        destruct (ByteBufferFacts.indexOf_range (MAGIC_LOW prot) b); lia. }
      match goal with
      | |- context [?x <? ?y] => destruct (Z.ltb_spec x y) as [Hshort|_]
      end; cbn [st buff].
      { intros _. now left. }
      destruct (extract _) as [[frame| |f] b'] eqn:E; cbn [st buff].
      * apply IH.
      * now apply extract_keeps_suffix in E.
      * discriminate.
Qed.

Lemma while_emits_not_both (fuel : nat) :
  forall (b : ByteBuffer.t) (frame : list byte),
  In frame (emitted (while prot fuel b)) ->
  ~ (In (MAGIC_HIGH prot) frame /\ In (MAGIC_LOW prot) frame).
Proof.
  induction fuel as [|fuel IH]; intros b frame Hin; simpl in Hin.
  - destruct (_ <? _); destruct Hin.
  - destruct (_ <? _); [destruct Hin|].
    destruct (iteration prot b) as [[first| |f] b'] eqn:E;
      try destruct Hin.
    + subst first. intros [Hh Hl].
      destruct (iteration_emits prot _ _ _ E) as (dropped & Hb & _).
      rewrite (iteration_markers_present prot b) in E; [discriminate| |];
        rewrite Hb; apply in_or_app; right; apply in_or_app; now left.
    + now apply (IH b').
Qed.

Lemma splice_beyond (n : Z) (b : ByteBuffer.t) :
  ByteBuffer.getLength b < n -> ByteBuffer.splice 0 n b = None.
Proof.
  intros H. unfold ByteBuffer.splice.
  destruct (Z.leb_spec (0 + n) (ByteBuffer.getLength b)); [lia|].
  now rewrite andb_false_r.
Qed.

Lemma iteration_zero_length (b : ByteBuffer.t) :
  ~ In (MAGIC_HIGH prot) b -> ~ In (MAGIC_LOW prot) b ->
  V1_HEAD_LENGTH prot <= ByteBuffer.getLength b ->
  ByteBuffer.readUInt32BE 3 b = Some 0 ->
  iteration prot b = (Normal [], b).
Proof.
  intros Hh Hl Hlen Hread.
  assert (H7 : 7 <= ByteBuffer.getLength b).
  { apply readUInt32BE_header in Hread
      as (x0 & x1 & x2 & b3 & b2 & b1 & b0 & tl & -> & _).
    unfold ByteBuffer.getLength. simpl length. lia. }
  rewrite iteration_no_marker by (assumption || lia).
  rewrite extract_cases, Hread, splice_front_in_range by lia.
  reflexivity.
Qed.

End Endings.

(** X8: what a call that returns leaves in the accumulator (the header
    being at least one byte long): fewer than [V1_HEAD_LENGTH] bytes, or
    both marker bytes, or bytes whose first marker found is the last byte
    buffered. *)
Theorem finished_accumulator_state
    (prot : ProtocolConstants) (fuel : nat) (acc chunk : list byte) :
  0 < V1_HEAD_LENGTH prot ->
  st (receive prot fuel acc chunk) = Finished ->
  ByteBuffer.getLength (buff (receive prot fuel acc chunk))
    < V1_HEAD_LENGTH prot \/
  (In (MAGIC_HIGH prot) (buff (receive prot fuel acc chunk)) /\
   In (MAGIC_LOW prot) (buff (receive prot fuel acc chunk))) \/
  Z.max
    (ByteBuffer.indexOf (MAGIC_HIGH prot) (buff (receive prot fuel acc chunk)))
    (ByteBuffer.indexOf (MAGIC_LOW prot) (buff (receive prot fuel acc chunk)))
    = ByteBuffer.getLength (buff (receive prot fuel acc chunk)) - 1.
Proof.
  intros Hhead. unfold receive, ByteBuffer.writeBytes.
  now apply while_finished_state.
Qed.

Lemma finished_accumulator_state_witness :
  (0 < V1_HEAD_LENGTH distinct_prot /\
   st (receive distinct_prot 3 [x11; xda]
         [x01; x02; x03; x00; x00; x00; x07; x21; x22; x23; x24; x25; x26; xdb])
     = Finished) /\
  (ByteBuffer.getLength
     (buff (receive distinct_prot 3 [x11; xda]
              [x01; x02; x03; x00; x00; x00; x07;
               x21; x22; x23; x24; x25; x26; xdb]))
     < V1_HEAD_LENGTH distinct_prot \/
   (In (MAGIC_HIGH distinct_prot)
      (buff (receive distinct_prot 3 [x11; xda]
               [x01; x02; x03; x00; x00; x00; x07;
                x21; x22; x23; x24; x25; x26; xdb])) /\
    In (MAGIC_LOW distinct_prot)
      (buff (receive distinct_prot 3 [x11; xda]
               [x01; x02; x03; x00; x00; x00; x07;
                x21; x22; x23; x24; x25; x26; xdb]))) \/
   Z.max
     (ByteBuffer.indexOf (MAGIC_HIGH distinct_prot)
        (buff (receive distinct_prot 3 [x11; xda]
                 [x01; x02; x03; x00; x00; x00; x07;
                  x21; x22; x23; x24; x25; x26; xdb])))
     (ByteBuffer.indexOf (MAGIC_LOW distinct_prot)
        (buff (receive distinct_prot 3 [x11; xda]
                 [x01; x02; x03; x00; x00; x00; x07;
                  x21; x22; x23; x24; x25; x26; xdb])))
     = ByteBuffer.getLength
         (buff (receive distinct_prot 3 [x11; xda]
                  [x01; x02; x03; x00; x00; x00; x07;
                   x21; x22; x23; x24; x25; x26; xdb])) - 1).
Proof.
  split.
  - split; reflexivity.
  - apply (finished_accumulator_state distinct_prot 3 [x11; xda]
             [x01; x02; x03; x00; x00; x00; x07;
              x21; x22; x23; x24; x25; x26; xdb]); reflexivity.
Defined.

(** X9: with a header of seven bytes or more, the read of the length field
    at line 101 never falls outside the accumulator: a call does not fail
    on it. *)
Theorem receive_length_read_in_range
    (prot : ProtocolConstants) (fuel : nat) (acc chunk : list byte)
    (index len : Z) :
  7 <= V1_HEAD_LENGTH prot ->
  st (receive prot fuel acc chunk) <> Failed (ReadOutOfRange index len).
Proof.
  intros Hhead. unfold receive. now apply while_read_in_range.
Qed.

Lemma receive_length_read_in_range_witness :
  7 <= V1_HEAD_LENGTH distinct_prot /\
  st (receive distinct_prot 2 [x11; xda] [x01; x02; x03; x00; x00; x00; x07])
    <> Failed (ReadOutOfRange 3 7).
Proof.
  split.
  - vm_compute. discriminate.
  - apply (receive_length_read_in_range distinct_prot 2 [x11; xda]
             [x01; x02; x03; x00; x00; x00; x07] 3 7).
    vm_compute. discriminate.
Defined.

(** X10: no buffer handed to the subscriber holds both marker bytes; in
    particular none is a well-formed frame. *)
Theorem never_emits_both_markers
    (prot : ProtocolConstants) (fuel : nat) (acc chunk frame : list byte) :
  In frame (emitted (receive prot fuel acc chunk)) ->
  ~ (In (MAGIC_HIGH prot) frame /\ In (MAGIC_LOW prot) frame) /\
  ~ wellFormedFrame prot frame.
Proof.
  intros Hin. unfold receive in Hin.
  apply while_emits_not_both in Hin. split; [assumption|].
  intros (H0 & H1 & _). apply Hin.
  now apply aligned_markers_present.
Qed.

Lemma never_emits_both_markers_witness :
  In [x01; x02; x03; x00; x00; x00; x07]
    (emitted (receive distinct_prot 2 [x11; xda]
                [x01; x02; x03; x00; x00; x00; x07])) /\
  ~ (In (MAGIC_HIGH distinct_prot) [x01; x02; x03; x00; x00; x00; x07] /\
     In (MAGIC_LOW distinct_prot) [x01; x02; x03; x00; x00; x00; x07]) /\
  ~ wellFormedFrame distinct_prot [x01; x02; x03; x00; x00; x00; x07].
Proof.
  split.
  - simpl. auto.
  - apply (never_emits_both_markers distinct_prot 2 [x11; xda]
             [x01; x02; x03; x00; x00; x00; x07]
             [x01; x02; x03; x00; x00; x00; x07]).
    simpl. auto.
Defined.

(** X11: an incomplete record makes the call fail.  When the buffered
    bytes hold no marker and their length field exceeds their number, line
    102 asks for more bytes than there are: the call ends on the failing
    [splice], nothing handed over, the accumulator as it was. *)
Theorem incomplete_record_fails
    (prot : ProtocolConstants) (fuel : nat) (acc chunk : list byte)
    (fullLength : Z) :
  ~ In (MAGIC_HIGH prot) (acc ++ chunk) ->
  ~ In (MAGIC_LOW prot) (acc ++ chunk) ->
  V1_HEAD_LENGTH prot <= ByteBuffer.getLength (acc ++ chunk) ->
  ByteBuffer.readUInt32BE 3 (acc ++ chunk) = Some fullLength ->
  ByteBuffer.getLength (acc ++ chunk) < fullLength ->
  receive prot (S fuel) acc chunk =
    {| emitted := [];
       buff := acc ++ chunk;
       st := Failed (SpliceOutOfRange 0 fullLength
                       (ByteBuffer.getLength (acc ++ chunk))) |}.
Proof.
  intros Hh Hl Hlen Hread Hshort.
  unfold receive, ByteBuffer.writeBytes.
  assert (H7 : 7 <= ByteBuffer.getLength (acc ++ chunk)).
  { apply readUInt32BE_header in Hread
      as (x0 & x1 & x2 & b3 & b2 & b1 & b0 & tl & -> & _).
    unfold ByteBuffer.getLength. simpl length. lia. }
  rewrite while_step by assumption.
  rewrite iteration_no_marker by (assumption || lia).
  rewrite extract_cases, Hread, splice_beyond by assumption.
  reflexivity.
Qed.

Lemma incomplete_record_fails_witness :
  (~ In (MAGIC_HIGH example_prot) ([x01; x02; x03] ++ [x00; x00; x01; x00]) /\
   ~ In (MAGIC_LOW example_prot) ([x01; x02; x03] ++ [x00; x00; x01; x00]) /\
   V1_HEAD_LENGTH example_prot <=
     ByteBuffer.getLength ([x01; x02; x03] ++ [x00; x00; x01; x00]) /\
   ByteBuffer.readUInt32BE 3 ([x01; x02; x03] ++ [x00; x00; x01; x00]) =
     Some 256 /\
   ByteBuffer.getLength ([x01; x02; x03] ++ [x00; x00; x01; x00]) < 256) /\
  receive example_prot 1 [x01; x02; x03] [x00; x00; x01; x00] =
    {| emitted := [];
       buff := [x01; x02; x03] ++ [x00; x00; x01; x00];
       st := Failed (SpliceOutOfRange 0 256
                       (ByteBuffer.getLength
                          ([x01; x02; x03] ++ [x00; x00; x01; x00]))) |}.
Proof.
  assert (Habsent : ~ In xda ([x01; x02; x03] ++ [x00; x00; x01; x00]))
    by absent_by_evaluation.
  split.
  - repeat apply conj; try assumption; by_evaluation.
  - apply (incomplete_record_fails example_prot 0 [x01; x02; x03]
             [x00; x00; x01; x00] 256); try assumption; by_evaluation.
Defined.

(** X12: a length field of zero keeps the loop going for ever.  When the
    buffered bytes hold no marker, are at least [V1_HEAD_LENGTH] and read 0
    at offset 3, every pass hands the subscriber an empty buffer and
    leaves the accumulator as it was: whatever number of passes is
    allowed, the call has not returned after them. *)
Theorem zero_length_record_loops
    (prot : ProtocolConstants) (fuel : nat) (acc chunk : list byte) :
  ~ In (MAGIC_HIGH prot) (acc ++ chunk) ->
  ~ In (MAGIC_LOW prot) (acc ++ chunk) ->
  V1_HEAD_LENGTH prot <= ByteBuffer.getLength (acc ++ chunk) ->
  ByteBuffer.readUInt32BE 3 (acc ++ chunk) = Some 0 ->
  receive prot fuel acc chunk =
    {| emitted := repeat [] fuel; buff := acc ++ chunk; st := Running |}.
Proof.
  intros Hh Hl Hlen Hread.
  unfold receive, ByteBuffer.writeBytes.
  induction fuel as [|fuel IH].
  - simpl. destruct (Z.ltb_spec (ByteBuffer.getLength (acc ++ chunk))
                       (V1_HEAD_LENGTH prot)); [lia|reflexivity].
  - rewrite while_step by assumption.
    rewrite (iteration_zero_length prot _ Hh Hl Hlen Hread).
    rewrite IH. reflexivity.
Qed.

Lemma zero_length_record_loops_witness :
  (~ In (MAGIC_HIGH distinct_prot) ([x01; x02; x03] ++ [x00; x00; x00; x00; x05]) /\
   ~ In (MAGIC_LOW distinct_prot) ([x01; x02; x03] ++ [x00; x00; x00; x00; x05]) /\
   V1_HEAD_LENGTH distinct_prot <=
     ByteBuffer.getLength ([x01; x02; x03] ++ [x00; x00; x00; x00; x05]) /\
   ByteBuffer.readUInt32BE 3 ([x01; x02; x03] ++ [x00; x00; x00; x00; x05]) =
     Some 0) /\
  receive distinct_prot 4 [x01; x02; x03] [x00; x00; x00; x00; x05] =
    {| emitted := repeat [] 4;
       buff := [x01; x02; x03] ++ [x00; x00; x00; x00; x05];
       st := Running |}.
Proof.
  assert (Hh : ~ In (MAGIC_HIGH distinct_prot)
                 ([x01; x02; x03] ++ [x00; x00; x00; x00; x05]))
    by absent_by_evaluation.
  assert (Hl : ~ In (MAGIC_LOW distinct_prot)
                 ([x01; x02; x03] ++ [x00; x00; x00; x00; x05]))
    by absent_by_evaluation.
  split.
  - repeat apply conj; try assumption; by_evaluation.
  - apply (zero_length_record_loops distinct_prot 4 [x01; x02; x03]
             [x00; x00; x00; x00; x05]); try assumption; by_evaluation.
Defined.
